(** * Bibbox frontend: session token, action relay and idle reset

    A shallow embedding of the React entry point of the Bibbox website
    (the [App] component: [getToken], [storeToken], [removeToken],
    [handleAction], [handleIdle], [loadTranslations],
    [activateTranslations] and the socket listeners registered by its
    [useEffect]), together with the properties of the session/token
    lifecycle that the specification states about it.

    Conventions of the embedding:
    - [localStorage] is a finite map from keys to string values;
      [getItem] of a missing key is JavaScript's [null], here [None].
    - Strings are sequences of one-byte code units.
    - A JavaScript number that holds an integer is a [Z]; [NaN] is a
      separate constructor.  Rounding to double precision is not
      modelled, which is exact for every integer a clock can produce.
    - The component's handlers run in a small state-and-exception monad
      over the record [world], which gathers the browser state the
      handlers read and write, and logs what they emit. *)

From Stdlib Require Import Ascii String ZArith Lia.
From stdpp Require Import base numbers option list strings gmap.

Local Open Scope string_scope.
Local Open Scope list_scope.
Local Open Scope Z_scope.

(** ** JavaScript numbers, [Number::toString] and [parseInt] *)

Inductive number : Type :=
| NaN
| Int (z : Z).

(** Code units that [parseInt] skips at the start of its input: TAB, LF,
    VT, FF, CR, SP and NBSP. *)
Definition is_whitespace (c : ascii) : bool :=
  let n := N_of_ascii c in
  (((9 <=? n) && (n <=? 13)) || (n =? 32) || (n =? 160))%N.

Fixpoint trim_start (s : string) : string :=
  match s with
  | String c s' => if is_whitespace c then trim_start s' else s
  | EmptyString => s
  end.

(** Value of a code unit as a digit of the given radix, if it is one. *)
Definition digit_value (radix : N) (c : ascii) : option N :=
  let n := N_of_ascii c in
  let v :=
    (if (48 <=? n) && (n <=? 57) then Some (n - 48)
     else if (97 <=? n) && (n <=? 122) then Some (n - 87)
     else if (65 <=? n) && (n <=? 90) then Some (n - 55)
     else None)%N in
  match v with
  | Some d => if (d <? radix)%N then Some d else None
  | None => None
  end.

(** The longest prefix of [s] made of digits, read in the given radix;
    [acc] is [None] as long as no digit has been read. *)
Fixpoint parse_digits (radix : N) (s : string) (acc : option N) : option N :=
  match s with
  | String c s' =>
      match digit_value radix c with
      | Some d => parse_digits radix s' (Some (default 0 acc * radix + d)%N)
      | None => acc
      end
  | EmptyString => acc
  end.

(** The sign of the input, and the input without it. *)
Definition strip_sign (s : string) : Z * string :=
  match s with
  | String "-" s' => (-1, s')
  | String "+" s' => (1, s')
  | _ => (1, s)
  end.

(** The radix selected by a [0x]/[0X] prefix, and the input without it. *)
Definition strip_radix_prefix (s : string) : N * string :=
  match s with
  | String "0" (String "x" s') => (16%N, s')
  | String "0" (String "X" s') => (16%N, s')
  | _ => (10%N, s)
  end.

(** [parseInt(string)] without a radix argument: leading white space is
    dropped, then an optional sign, then an optional [0x]/[0X] prefix that
    selects radix 16; the result is [NaN] when no digit follows.  The value
    of the digits is kept as an exact integer: it is the number JavaScript
    returns whenever that integer is at most 2^53 in absolute value; beyond,
    JavaScript rounds it to the nearest double, which is not modelled. *)
Definition parseInt_string (s : string) : number :=
  let '(sign, s) := strip_sign (trim_start s) in
  let '(radix, s) := strip_radix_prefix s in
  match parse_digits radix s None with
  | Some n => Int (sign * Z.of_N n)
  | None => NaN
  end.

Definition digit_char (d : N) : ascii := ascii_of_N (48 + d).

(** Decimal digits of [n], most significant first; [fuel] bounds the number
    of digits produced. *)
Fixpoint to_digits (fuel : nat) (n : N) : list N :=
  match fuel with
  | O => []
  | S fuel' =>
      if (n <? 10)%N then [n]
      else to_digits fuel' (n / 10)%N ++ [(n mod 10)%N]
  end.

Definition decimal_digits (n : N) : list N :=
  to_digits (S (N.to_nat (N.log2 n))) n.

Definition digits_to_string (ds : list N) : string :=
  string_of_list_ascii (digit_char <$> ds).

Fixpoint drop_trailing_zeros (ds : list N) : list N :=
  match ds with
  | [] => []
  | d :: ds' =>
      match drop_trailing_zeros ds' with
      | [] => if (d =? 0)%N then [] else [d]
      | ds'' => d :: ds''
      end
  end.

(** The number that a list of decimal digits denotes. *)
Definition digits_value (ds : list N) : N :=
  foldl (λ a d, a * 10 + d)%N 0%N ds.

(** [Number::toString] of a non-negative integer: plain decimal digits
    below 10^21, exponent notation from there on.  The digits are those of
    the exact integer, which is what JavaScript prints up to 2^53; beyond,
    JavaScript prints the shortest digits that read back as the same double,
    which is not modelled. *)
Definition N_toString (n : N) : string :=
  let ds := decimal_digits n in
  if (n <? 10 ^ 21)%N then digits_to_string ds
  else
    let e := digits_to_string (decimal_digits (N.of_nat (length ds - 1))) in
    match drop_trailing_zeros ds with
    | [] => "0"
    | [d] => digits_to_string [d] +:+ "e+" +:+ e
    | d :: ds' =>
        digits_to_string [d] +:+ "." +:+ digits_to_string ds' +:+ "e+" +:+ e
    end.

Definition Number_toString (x : number) : string :=
  match x with
  | NaN => "NaN"
  | Int z =>
      if z <? 0 then "-" +:+ N_toString (Z.to_N (- z))
      else N_toString (Z.to_N z)
  end.

(** [parseInt(x)] where [x] is already a number: the argument is first
    converted to a string. *)
Definition parseInt_number (x : number) : number :=
  parseInt_string (Number_toString x).

(** [x <= y] on numbers; every comparison with [NaN] is false. *)
Definition number_le (x y : number) : bool :=
  match x, y with
  | Int a, Int b => a <=? b
  | _, _ => false
  end.

(** ** Data carried by the channel and kept by the component *)

(** Action data and the parts of server snapshots that the component only
    passes on are opaque. *)
Definition payload : Type := string.

Record MachineState : Type := {
  step : string;
  state_data : payload
}.

Record BoxConfig : Type := {
  defaultLanguageCode : string;
  inactivityTimeOut : Z;
  config_data : payload
}.

(** Messages the client hands to [socket.emit]. *)
Inductive socket_message : Type :=
| GetToken (uniqueId : string)
| ClientReady (token : string)
| ClientEvent_Reset (token : string)
| ClientEvent_Action (action : string) (token : string) (data : payload).

(** Events the client listens to with [socket.on]. *)
Inductive socket_event : Type :=
| Token (token : string) (expire : number)
| reconnect
| Configuration (data : BoxConfig)
| UpdateState (data : MachineState).

Definition event_name (e : socket_event) : string :=
  match e with
  | Token _ _ => "Token"
  | reconnect => "reconnect"
  | Configuration _ => "Configuration"
  | UpdateState _ => "UpdateState"
  end.

(** What [getToken] returns: the token string, or [false]. *)
Inductive token_or_false : Type :=
| TokFalse
| TokString (token : string).

(** The module that a dynamic [import] of [module_path] resolves to. *)
Record lang_module : Type := { module_path : string }.

(** A dynamic import that has not resolved yet, with the language code its
    [then] callback has captured. *)
Record pending_import : Type := {
  import_path : string;
  import_languageCode : string
}.

(** Modelled from the spec: the [IdleTimer] component comes from the
    react-idle-timer package, which is not among the sources.  It is the
    Idle Monitor of the specification: a single cancellable deadline and two
    states, Active and Idle-triggered.  [reset] cancels the pending deadline
    and restarts the countdown from the current time for a full timeout;
    reaching the deadline while Active moves to Idle-triggered and calls
    [onIdle] once. *)
Inductive monitor_phase : Type :=
| Active
| IdleTriggered.

(** Modelled from the spec: the monitor's configured timeout, its pending
    deadline (both in milliseconds) and its state. *)
Record IdleTimer : Type := {
  timeout : Z;
  deadline : Z;
  phase : monitor_phase
}.

(** Modelled from the spec: [reset()], cancel and reschedule. *)
Definition IdleTimer_reset (now_ms : Z) (t : IdleTimer) : IdleTimer :=
  {| timeout := timeout t; deadline := now_ms + timeout t; phase := Active |}.

(** Modelled from the spec: a monitor that has just been mounted starts
    Active with a full timeout ahead. *)
Definition IdleTimer_mount (now_ms : Z) (timeout_ms : Z) : IdleTimer :=
  {| timeout := timeout_ms; deadline := now_ms + timeout_ms; phase := Active |}.

(** Modelled from the spec: a new [timeout] prop is taken over; the pending
    deadline stays. *)
Definition IdleTimer_set_timeout (timeout_ms : Z) (t : IdleTimer) : IdleTimer :=
  {| timeout := timeout_ms; deadline := deadline t; phase := phase t |}.

(** Modelled from the spec: the transition to Idle-triggered. *)
Definition IdleTimer_expire (t : IdleTimer) : IdleTimer :=
  {| timeout := timeout t; deadline := deadline t; phase := IdleTriggered |}.

(** Modelled from the spec: the idle deadline has been reached while the
    monitor is Active. *)
Definition IdleTimer_due (now_ms : Z) (t : IdleTimer) : bool :=
  match phase t with
  | Active => deadline t <=? now_ms
  | IdleTriggered => false
  end.

(** ** The world the component runs in *)

Record world : Type := {
  (* browser *)
  localStorage : gmap string string;
  clock_ms : Z;
  alerts : list string;
  (* socket *)
  listeners : list string;
  emitted : list socket_message;
  (* component state and refs *)
  machineState : option MachineState;
  boxConfig : option BoxConfig;
  messages : option lang_module;
  language : string;
  idleTimerRef : option IdleTimer;
  (* module loader *)
  pending_imports : list pending_import
}.

Definition set_localStorage (v : gmap string string) (w : world) : world :=
  {| localStorage := v; clock_ms := clock_ms w; alerts := alerts w;
     listeners := listeners w; emitted := emitted w;
     machineState := machineState w; boxConfig := boxConfig w;
     messages := messages w; language := language w;
     idleTimerRef := idleTimerRef w; pending_imports := pending_imports w |}.

Definition set_clock_ms (v : Z) (w : world) : world :=
  {| localStorage := localStorage w; clock_ms := v; alerts := alerts w;
     listeners := listeners w; emitted := emitted w;
     machineState := machineState w; boxConfig := boxConfig w;
     messages := messages w; language := language w;
     idleTimerRef := idleTimerRef w; pending_imports := pending_imports w |}.

Definition set_alerts (v : list string) (w : world) : world :=
  {| localStorage := localStorage w; clock_ms := clock_ms w; alerts := v;
     listeners := listeners w; emitted := emitted w;
     machineState := machineState w; boxConfig := boxConfig w;
     messages := messages w; language := language w;
     idleTimerRef := idleTimerRef w; pending_imports := pending_imports w |}.

Definition set_listeners (v : list string) (w : world) : world :=
  {| localStorage := localStorage w; clock_ms := clock_ms w; alerts := alerts w;
     listeners := v; emitted := emitted w;
     machineState := machineState w; boxConfig := boxConfig w;
     messages := messages w; language := language w;
     idleTimerRef := idleTimerRef w; pending_imports := pending_imports w |}.

Definition set_emitted (v : list socket_message) (w : world) : world :=
  {| localStorage := localStorage w; clock_ms := clock_ms w; alerts := alerts w;
     listeners := listeners w; emitted := v;
     machineState := machineState w; boxConfig := boxConfig w;
     messages := messages w; language := language w;
     idleTimerRef := idleTimerRef w; pending_imports := pending_imports w |}.

Definition set_machineState (v : option MachineState) (w : world) : world :=
  {| localStorage := localStorage w; clock_ms := clock_ms w; alerts := alerts w;
     listeners := listeners w; emitted := emitted w;
     machineState := v; boxConfig := boxConfig w;
     messages := messages w; language := language w;
     idleTimerRef := idleTimerRef w; pending_imports := pending_imports w |}.

Definition set_boxConfig (v : option BoxConfig) (w : world) : world :=
  {| localStorage := localStorage w; clock_ms := clock_ms w; alerts := alerts w;
     listeners := listeners w; emitted := emitted w;
     machineState := machineState w; boxConfig := v;
     messages := messages w; language := language w;
     idleTimerRef := idleTimerRef w; pending_imports := pending_imports w |}.

Definition set_messages (v : option lang_module) (w : world) : world :=
  {| localStorage := localStorage w; clock_ms := clock_ms w; alerts := alerts w;
     listeners := listeners w; emitted := emitted w;
     machineState := machineState w; boxConfig := boxConfig w;
     messages := v; language := language w;
     idleTimerRef := idleTimerRef w; pending_imports := pending_imports w |}.

Definition set_language (v : string) (w : world) : world :=
  {| localStorage := localStorage w; clock_ms := clock_ms w; alerts := alerts w;
     listeners := listeners w; emitted := emitted w;
     machineState := machineState w; boxConfig := boxConfig w;
     messages := messages w; language := v;
     idleTimerRef := idleTimerRef w; pending_imports := pending_imports w |}.

Definition set_idleTimerRef (v : option IdleTimer) (w : world) : world :=
  {| localStorage := localStorage w; clock_ms := clock_ms w; alerts := alerts w;
     listeners := listeners w; emitted := emitted w;
     machineState := machineState w; boxConfig := boxConfig w;
     messages := messages w; language := language w;
     idleTimerRef := v; pending_imports := pending_imports w |}.

Definition set_pending_imports (v : list pending_import) (w : world) : world :=
  {| localStorage := localStorage w; clock_ms := clock_ms w; alerts := alerts w;
     listeners := listeners w; emitted := emitted w;
     machineState := machineState w; boxConfig := boxConfig w;
     messages := messages w; language := language w;
     idleTimerRef := idleTimerRef w; pending_imports := v |}.

(** ** The monad of handlers: state over [world], with exceptions *)

Inductive outcome (A : Type) : Type :=
| Returns (a : A) (w : world)
| Throws (error : string) (w : world).
Arguments Returns {A} a w.
Arguments Throws {A} error w.

Definition M (A : Type) : Type := world → outcome A.

#[export] Instance M_ret : MRet M := λ A a w, Returns a w.

#[export] Instance M_bind : MBind M := λ A B f m w,
  match m w with
  | Returns a w' => f a w'
  | Throws e w' => Throws e w'
  end.

Definition throw {A : Type} (error : string) : M A := λ w, Throws error w.

(** The world a handler leaves behind.  An exception that escapes an event
    handler ends the handler; the event loop goes on. *)
Definition exec {A : Type} (m : M A) (w : world) : world :=
  match m w with
  | Returns _ w' => w'
  | Throws _ w' => w'
  end.

(** *** Browser and socket primitives *)

Definition localStorage_getItem (key : string) : M (option string) :=
  λ w, Returns (localStorage w !! key) w.

Definition localStorage_setItem (key value : string) : M unit :=
  λ w, Returns () (set_localStorage (<[key := value]> (localStorage w)) w).

Definition localStorage_removeItem (key : string) : M unit :=
  λ w, Returns () (set_localStorage (delete key (localStorage w)) w).

Definition Date_now : M Z := λ w, Returns (clock_ms w) w.

Definition alert (message : string) : M unit :=
  λ w, Returns () (set_alerts (alerts w ++ [message]) w).

Definition socket_emit (message : socket_message) : M unit :=
  λ w, Returns () (set_emitted (emitted w ++ [message]) w).

Definition socket_on (name : string) : M unit :=
  λ w, Returns () (set_listeners (listeners w ++ [name]) w).

Definition setMachineState (data : MachineState) : M unit :=
  λ w, Returns () (set_machineState (Some data) w).

Definition setBoxConfig (data : BoxConfig) : M unit :=
  λ w, Returns () (set_boxConfig (Some data) w).

Definition setMessages (data : lang_module) : M unit :=
  λ w, Returns () (set_messages (Some data) w).

Definition setLanguage (languageCode : string) : M unit :=
  λ w, Returns () (set_language languageCode w).

Definition get_machineState : M (option MachineState) :=
  λ w, Returns (machineState w) w.

Definition idleTimerRef_current : M (option IdleTimer) :=
  λ w, Returns (idleTimerRef w) w.

(** [idleTimerRef.current.reset()] *)
Definition idleTimerRef_current_reset : M unit :=
  λ w, Returns ()
         (set_idleTimerRef (IdleTimer_reset (clock_ms w) <$> idleTimerRef w) w).

(** [import(path).then(data => ...)]: the request is queued; its callback
    runs when the module loader resolves it. *)
Definition dynamic_import (path languageCode : string) : M unit :=
  λ w, Returns ()
         (set_pending_imports
            (pending_imports w ++
               [{| import_path := path; import_languageCode := languageCode |}])
            w).

(** The text of the alert raised when no valid token is found. *)
Definition access_denied : string := "Token not valid. Access denied".

(** [ToString] of what [localStorage.getItem] returned. *)
Definition item_to_string (item : option string) : string :=
  match item with
  | Some value => value
  | None => "null"
  end.

(** [x === null] for a value [x] that is a number: never true. *)
Definition strict_eq_null (x : number) : bool := false.

(** ** The [App] component *)

Section App.

(** The component's prop: the unique id of the configuration to load. *)
Variable uniqueId : string.

Definition storeToken (token : string) (expire : number) : M unit :=
  localStorage_setItem "token" token ;;
  localStorage_setItem "expire" (Number_toString expire) ;;
  localStorage_setItem "uniqueId" uniqueId.

Definition removeToken : M unit :=
  localStorage_removeItem "token" ;;
  localStorage_removeItem "expire" ;;
  localStorage_removeItem "uniqueId".

Definition getToken : M token_or_false :=
  ms ← Date_now;
  let now := Int (ms / 1000) in
  item ← localStorage_getItem "expire";
  let expire := parseInt_string (item_to_string item) in
  if strict_eq_null expire || number_le (parseInt_number expire) now then
    mret TokFalse
  else
    token ← localStorage_getItem "token";
    mret (match token with
          | Some token => TokString token
          | None => TokFalse
          end).

Definition activateTranslations (data : lang_module) (languageCode : string)
  : M unit :=
  setMessages data ;;
  setLanguage languageCode.

Definition supportedLanguageCodes : list string := ["da"; "en"].

Definition loadTranslations (languageCode : string) : M unit :=
  let selectedLanguageCode :=
    if bool_decide (languageCode ∈ supportedLanguageCodes)
    then languageCode else "en" in
  dynamic_import ("../../public/lang/" +:+ selectedLanguageCode +:+ "-comp.json")
                 languageCode.

(** The [if (idleTimerRef.current !== null)] guard around every reset. *)
Definition reset_idle_timer : M unit :=
  current ← idleTimerRef_current;
  match current with
  | Some _ => idleTimerRef_current_reset
  | None => mret ()
  end.

Definition handleAction (action : string) (data : payload) : M unit :=
  token ← getToken;
  match token with
  | TokFalse => alert "Token not valid. Access denied"
  | TokString token =>
      reset_idle_timer ;;
      if bool_decide (action = "reset") then
        socket_emit (ClientEvent_Reset token)
      else
        socket_emit (ClientEvent_Action action token data)
  end.

Definition handleIdle : M unit :=
  token ← getToken;
  match token with
  | TokFalse => alert "Token not valid. Access denied"
  | TokString token =>
      state ← get_machineState;
      match state with
      | None => throw "TypeError: machineState is undefined"
      | Some state =>
          if bool_decide (step state ≠ "initial") then
            socket_emit (ClientEvent_Reset token)
          else
            reset_idle_timer
      end
  end.

(** *** The effect run when the component mounts

    The three parts follow the order of the source: the check of the
    stored configuration id, the choice between requesting a token and
    resuming with the stored one, and the registration of the listeners. *)

Definition drop_foreign_token : M unit :=
  stored ← localStorage_getItem "uniqueId";
  if bool_decide (stored ≠ Some uniqueId) then removeToken else mret ().

Definition negotiate_session : M unit :=
  token ← getToken;
  match token with
  | TokFalse => socket_emit (GetToken uniqueId)
  | TokString token => socket_emit (ClientReady token)
  end.

Definition register_listeners : M unit :=
  socket_on "Token" ;;
  socket_on "reconnect" ;;
  socket_on "Configuration" ;;
  socket_on "UpdateState".

Definition useEffect : M unit :=
  drop_foreign_token ;;
  negotiate_session ;;
  register_listeners.

(** *** The socket listeners *)

Definition on_Token (token : string) (expire : number) : M unit :=
  storeToken token expire ;;
  socket_emit (ClientReady token).

Definition on_reconnect : M unit :=
  token ← getToken;
  match token with
  | TokFalse => alert "Token not valid. Access denied"
  | TokString token => socket_emit (ClientReady token)
  end.

Definition on_Configuration (data : BoxConfig) : M unit :=
  loadTranslations (defaultLanguageCode data) ;;
  setBoxConfig data.

Definition on_UpdateState (data : MachineState) : M unit :=
  reset_idle_timer ;;
  setMachineState data.

Definition listener (e : socket_event) : M unit :=
  match e with
  | Token token expire => on_Token token expire
  | reconnect => on_reconnect
  | Configuration data => on_Configuration data
  | UpdateState data => on_UpdateState data
  end.

(** *** Rendering

    [IdleTimer] and [Bibbox] are rendered once both the machine state and
    the box configuration are there; the timer takes its timeout from the
    configuration and starts counting when it is mounted. *)
Definition render (w : world) : world :=
  match machineState w, boxConfig w with
  | Some _, Some config =>
      let timer :=
        match idleTimerRef w with
        | Some t => IdleTimer_set_timeout (inactivityTimeOut config) t
        | None => IdleTimer_mount (clock_ms w) (inactivityTimeOut config)
        end in
      set_idleTimerRef (Some timer) w
  | _, _ => set_idleTimerRef None w
  end.

(** *** The event loop

    [Pulse] is user activity seen by the idle monitor and [Tick] the passing
    of time; both are modelled from the spec's description of the monitor.
    The other events run the component's own code. *)

Inductive event : Type :=
| Mount
| Receive (e : socket_event)
| UserAction (action : string) (data : payload)
| ImportResolved (n : nat)
| Pulse
| Tick (dt : N).

(** The [then] callback of the [n]-th pending import. *)
Definition import_resolved (n : nat) : M unit :=
  λ w,
    match pending_imports w !! n with
    | Some p =>
        activateTranslations {| module_path := import_path p |}
                             (import_languageCode p)
                             (set_pending_imports (delete n (pending_imports w)) w)
    | None => Returns () w
    end.

(** Modelled from the spec: time passes; when the idle deadline is reached
    the monitor becomes Idle-triggered and calls [onIdle], which the
    component sets to [handleIdle]. *)
Definition tick (dt : N) : M unit :=
  λ w,
    let w := set_clock_ms (clock_ms w + Z.of_N dt) w in
    match idleTimerRef w with
    | Some t =>
        if IdleTimer_due (clock_ms w) t then
          handleIdle (set_idleTimerRef (Some (IdleTimer_expire t)) w)
        else Returns () w
    | None => Returns () w
    end.

Definition handle (ev : event) (w : world) : world :=
  match ev with
  | Mount => render (exec useEffect w)
  | Receive e =>
      if bool_decide (event_name e ∈ listeners w)
      then render (exec (listener e) w) else w
  | UserAction action data =>
      match machineState w, boxConfig w with
      | Some _, Some _ => render (exec (handleAction action data) w)
      | _, _ => w
      end
  | ImportResolved n => render (exec (import_resolved n) w)
  | Pulse => exec reset_idle_timer w
  | Tick dt => exec (tick dt) w
  end.

Definition run (evs : list event) (w : world) : world :=
  foldl (λ w ev, handle ev w) w evs.

End App.

(** Number of reset-action messages sent so far. *)
Definition is_Reset (m : socket_message) : bool :=
  match m with
  | ClientEvent_Reset _ => true
  | _ => false
  end.

Definition resets_emitted (w : world) : nat :=
  length (filter (λ m, is_Reset m = true) (emitted w)).

(** A fresh page load: nothing received yet, nothing rendered. *)
Definition initial_world (storage : gmap string string) (now_ms : Z) : world :=
  {| localStorage := storage; clock_ms := now_ms; alerts := [];
     listeners := []; emitted := [];
     machineState := None; boxConfig := None;
     messages := None; language := "en";
     idleTimerRef := None; pending_imports := [] |}.

(** The module path that [loadTranslations] imports for a selected code. *)
Definition lang_path (languageCode : string) : string :=
  "../../public/lang/" +:+ languageCode +:+ "-comp.json".

(** ** Sample worlds

    The scenario of the specification: token T1 for configuration A,
    expiring at second 200. *)
Definition storage_T1 : gmap string string :=
  <["uniqueId" := "A"]> (<["expire" := "200"]> (<["token" := "T1"]> ∅)).

(** A kiosk in the middle of a loan, its idle timer running. *)
Definition world_busy (now_ms : Z) : world :=
  {| localStorage := storage_T1; clock_ms := now_ms; alerts := [];
     listeners := ["Token"; "reconnect"; "Configuration"; "UpdateState"];
     emitted := [ClientReady "T1"];
     machineState := Some {| step := "checkOutItems"; state_data := "" |};
     boxConfig := Some {| defaultLanguageCode := "da";
                          inactivityTimeOut := 30000;
                          config_data := "" |};
     messages := Some {| module_path := "../../public/lang/da-comp.json" |};
     language := "da";
     idleTimerRef := Some {| timeout := 30000; deadline := 130000;
                             phase := Active |};
     pending_imports := [] |}.

(** The same kiosk on its home screen. *)
Definition world_home (now_ms : Z) : world :=
  set_machineState (Some {| step := "initial"; state_data := "" |})
                   (world_busy now_ms).

(** A configuration whose default language has no bundle. *)
Definition config_fr : BoxConfig :=
  {| defaultLanguageCode := "fr"; inactivityTimeOut := 30000;
     config_data := "" |}.

Definition config_da : BoxConfig :=
  {| defaultLanguageCode := "da"; inactivityTimeOut := 30000;
     config_data := "" |}.

(** The idle timer is mounted exactly when the kiosk screen is rendered. *)
Definition mounted_with_screen (w : world) : Prop :=
  is_Some (idleTimerRef w) ↔ is_Some (machineState w) ∧ is_Some (boxConfig w).

(** Modelled from the spec: the monitor has nothing pending, because it is
    not mounted or because it is Idle-triggered and waits for activity. *)
Definition quiescent (w : world) : Prop :=
  match idleTimerRef w with
  | Some t => phase t = IdleTriggered
  | None => True
  end.

(** ** The [ScanPasswordLogin] step

    The component keeps the scanned username, the typed password and a flag
    that tells whether a username has been scanned.  It reports to the
    [actionHandler] it was given; the calls it makes are logged. *)

(** The second argument of a call of [actionHandler]. *)
Inductive action_data : Type :=
| NoData
| LoginData (username password : string)
| LoginMethodData (loginMethod : string).

Record action_call : Type := {
  call_action : string;
  call_data : action_data
}.

(** The two help texts, by the id of their message. *)
Inductive help_box_text : Type :=
| scan_login_password_usename_help_box_text
| scan_login_password_password_help_box_text.

(** The subheader: a plain string, or a message given by its id. *)
Inductive subheader_value : Type :=
| SubheaderString (text : string)
| SubheaderMessage (id : string).

(** The state values that the functions created by one render close over. *)
Record login_closure : Type := {
  closure_username : string;
  closure_password : string;
  closure_usernameScanned : bool
}.

Record login_state : Type := {
  username : string;
  password : string;
  subheader : subheader_value;
  helpboxText : help_box_text;
  usernameScanned : bool;
  (* the render whose [enterFunction] is the keydown listener of the window *)
  keydown_listener : login_closure;
  (* calls of [actionHandler] so far *)
  action_calls : list action_call
}.

Definition setUsername (v : string) (st : login_state) : login_state :=
  {| username := v; password := password st; subheader := subheader st;
     helpboxText := helpboxText st; usernameScanned := usernameScanned st;
     keydown_listener := keydown_listener st; action_calls := action_calls st |}.

Definition setPassword (v : string) (st : login_state) : login_state :=
  {| username := username st; password := v; subheader := subheader st;
     helpboxText := helpboxText st; usernameScanned := usernameScanned st;
     keydown_listener := keydown_listener st; action_calls := action_calls st |}.

Definition setSubheader (v : subheader_value) (st : login_state) : login_state :=
  {| username := username st; password := password st; subheader := v;
     helpboxText := helpboxText st; usernameScanned := usernameScanned st;
     keydown_listener := keydown_listener st; action_calls := action_calls st |}.

Definition setHelpboxText (v : help_box_text) (st : login_state) : login_state :=
  {| username := username st; password := password st; subheader := subheader st;
     helpboxText := v; usernameScanned := usernameScanned st;
     keydown_listener := keydown_listener st; action_calls := action_calls st |}.

Definition setUsernameScanned (v : bool) (st : login_state) : login_state :=
  {| username := username st; password := password st; subheader := subheader st;
     helpboxText := helpboxText st; usernameScanned := v;
     keydown_listener := keydown_listener st; action_calls := action_calls st |}.

Definition set_keydown_listener (v : login_closure) (st : login_state)
  : login_state :=
  {| username := username st; password := password st; subheader := subheader st;
     helpboxText := helpboxText st; usernameScanned := usernameScanned st;
     keydown_listener := v; action_calls := action_calls st |}.

(** [actionHandler(action, data)] *)
Definition actionHandler (action : string) (data : action_data)
    (st : login_state) : login_state :=
  {| username := username st; password := password st; subheader := subheader st;
     helpboxText := helpboxText st; usernameScanned := usernameScanned st;
     keydown_listener := keydown_listener st;
     action_calls := action_calls st ++
                       [{| call_action := action; call_data := data |}] |}.

(** What the functions of the current render close over. *)
Definition current_closure (st : login_state) : login_closure :=
  {| closure_username := username st;
     closure_password := password st;
     closure_usernameScanned := usernameScanned st |}.

(** [s.slice(0, -1)]: [s] without its last code unit. *)
Definition slice_0_minus_1 (s : string) : string :=
  String.substring 0 (String.length s - 1) s.

(** The state of the first render, with the keydown listener of that render
    registered. *)
Definition login_initial : login_state :=
  {| username := ""; password := "";
     subheader := SubheaderString "Scan dit bibliotekskort";
     helpboxText := scan_login_password_usename_help_box_text;
     usernameScanned := false;
     keydown_listener := {| closure_username := "";
                            closure_password := "";
                            closure_usernameScanned := false |};
     action_calls := [] |}.

Section ScanPasswordLogin.

(** Constants of the barcode commands, imported from a file that is not
    among the sources. *)
Variable BARCODE_COMMAND_FINISH : string.
Variable BARCODE_COMMAND_LENGTH : nat.

(** The capability flags of the box configuration in the context. *)
Variable debugEnabled : bool.
Variable hasTouch : bool.

Definition handleUsernameInput (username : string) (st : login_state)
  : login_state :=
  setSubheader (SubheaderMessage "scan-login-password-password-subheader")
    (setHelpboxText scan_login_password_password_help_box_text
       (setUsernameScanned true (setUsername username st))).

Definition barcodeCallback (code : string) (st : login_state) : login_state :=
  if bool_decide (String.length code = BARCODE_COMMAND_LENGTH) then
    if bool_decide (code = BARCODE_COMMAND_FINISH) then
      actionHandler "reset" NoData st
    else st
  else
    setSubheader (SubheaderString "Tast dit password")
      (setHelpboxText scan_login_password_password_help_box_text
         (setUsernameScanned true
            (setUsername code (handleUsernameInput code st)))).

(** [login], [onInput] and [enterFunction] read [username], [password] and
    [usernameScanned] from the render that created them. *)
Definition login (c : login_closure) (st : login_state) : login_state :=
  actionHandler "login"
    (LoginData (closure_username c) (closure_password c)) st.

Definition onInput (c : login_closure) (key : string) (st : login_state)
  : login_state :=
  if bool_decide (key = "{enter}") then login c st
  else if bool_decide (key = "{bksp}")
       then setPassword (slice_0_minus_1 (closure_password c)) st
       else setPassword (closure_password c +:+ key) st.

Definition enterFunction (c : login_closure) (key : string) (st : login_state)
  : login_state :=
  if bool_decide (key = "Enter") && closure_usernameScanned c
  then login c st else st.

Definition onKeyboardInput (value : string) (st : login_state) : login_state :=
  setPassword value st.

(** What can happen to the mounted component. *)
Inductive login_event : Type :=
| Scan (code : string)
| KeyPress (key : string)
| KeyDown (key : string)
| InputChange (value : string)
| DebugUsernameButton
| DebugLoginButton.

(** The handler an event reaches.  The on-screen keyboard, the password
    input and the debug buttons exist only when they are rendered; they
    call the functions of the current render.  A keydown reaches the
    listener that is registered on the window. *)
Definition login_handler (ev : login_event) (st : login_state) : login_state :=
  match ev with
  | Scan code => barcodeCallback code st
  | KeyPress key =>
      if usernameScanned st && (debugEnabled || hasTouch)
      then onInput (current_closure st) key st else st
  | KeyDown key => enterFunction (keydown_listener st) key st
  | InputChange value =>
      if usernameScanned st then onKeyboardInput value st else st
  | DebugUsernameButton =>
      if debugEnabled then handleUsernameInput "C023648674" st else st
  | DebugLoginButton =>
      if debugEnabled
      then actionHandler "login" (LoginData "C023648674" "") st else st
  end.

(** The effect with dependency [password]: after a render in which the
    password differs from the one of the render before, the keydown listener
    is replaced by the [enterFunction] of the new render. *)
Definition login_dispatch (ev : login_event) (st : login_state) : login_state :=
  let st' := login_handler ev st in
  if bool_decide (password st' = password st) then st'
  else set_keydown_listener (current_closure st') st'.

Definition login_run (evs : list login_event) (st : login_state) : login_state :=
  foldl (λ st ev, login_dispatch ev st) st evs.

End ScanPasswordLogin.

(** The calls the login step can make: reset without data, or login with a
    username and a password. *)
Definition login_step_call (c : action_call) : Prop :=
  (call_action c = "reset" ∧ call_data c = NoData) ∨
  (call_action c = "login" ∧ ∃ u p, call_data c = LoginData u p).

(** ** The [ChangeLoginMethod] step *)

(** The labels a bubble can carry, by the name of the imported message. *)
Inductive login_label : Type :=
| ChangeLoginMethodUsernamePassword
| ChangeLoginMethodUsername
| ChangeLoginMethodStartHere.

Record login_component : Type := {
  type : string;
  label : login_label
}.

(** The bubbles offered for the login methods of the box configuration. *)
Definition components (loginSessionMethods : list string)
  : list login_component :=
  (if bool_decide ("login_barcode_password" ∈ loginSessionMethods) then
     [{| type := "loginScanUsernamePassword";
         label := if (1 <? length loginSessionMethods)%nat
                  then ChangeLoginMethodUsernamePassword
                  else ChangeLoginMethodStartHere |}]
   else [])
  ++
  (if bool_decide ("login_barcode" ∈ loginSessionMethods) then
     [{| type := "loginScanUsername";
         label := if (1 <? length loginSessionMethods)%nat
                  then ChangeLoginMethodUsername
                  else ChangeLoginMethodStartHere |}]
   else []).



(** The import that a configuration message starts. *)
Definition import_of (data : BoxConfig) : pending_import :=
  {| import_path :=
       lang_path (if bool_decide (defaultLanguageCode data
                                  ∈ supportedLanguageCodes)
                  then defaultLanguageCode data else "en");
     import_languageCode := defaultLanguageCode data |}.

(** ** More sample worlds *)

(** The keys of the entries the Token Store owns. *)
Definition token_keys : list string := ["token"; "expire"; "uniqueId"].

(** Sum of the lengths of a run of ticks, in milliseconds. *)
Definition ticks_total (dts : list N) : Z :=
  foldr (λ dt total, Z.of_N dt + total) 0 dts.

(** A page load: what is in the store survives, everything else starts
    afresh. *)
Definition reload (now_ms : Z) (w : world) : world :=
  initial_world (localStorage w) now_ms.

(** ** [parseInt] and [Number::toString] on sample inputs *)

Example parseInt_null : parseInt_string "null" = NaN.
Proof. reflexivity. Qed.
Example parseInt_ex1 : parseInt_string "  -12px" = Int (-12).
Proof. reflexivity. Qed.
Example parseInt_ex2 : parseInt_string "0x1F" = Int 31.
Proof. reflexivity. Qed.
Example parseInt_ex3 : parseInt_string "1e+21" = Int 1.
Proof. reflexivity. Qed.
Example toString_ex1 : Number_toString (Int 1600000000) = "1600000000".
Proof. reflexivity. Qed.
Example toString_ex2 : Number_toString (Int (10 ^ 21)) = "1e+21".
Proof. vm_compute. reflexivity. Qed.
Example toString_ex3 : Number_toString (Int (-125 * 10 ^ 20)) = "-1.25e+22".
Proof. vm_compute. reflexivity. Qed.
Example toString_ex4 : Number_toString (Int 0) = "0".
Proof. reflexivity. Qed.
Example parseInt_ex4 : parseInt_string "0x" = NaN.
Proof. reflexivity. Qed.
Example parseInt_ex5 : parseInt_string "-0" = Int 0.
Proof. reflexivity. Qed.

(** ** Facts about numbers and their decimal notation *)

Ltac digit_cases d H :=
  destruct d as [|d];
  [|do 4 (try destruct d as [d|d|])]; try (exfalso; clear -H; lia).

Lemma digit_value_digit_char (d : N) :
  (d < 10)%N → digit_value 10 (digit_char d) = Some d.
Proof. intros H. digit_cases d H; reflexivity. Qed.

Lemma to_digits_S (fuel : nat) (n : N) :
  to_digits (S fuel) n
  = if (n <? 10)%N then [n]
    else (to_digits fuel (n / 10)%N ++ [(n mod 10)%N])%list.
Proof. reflexivity. Qed.

Lemma to_digits_spec (fuel : nat) :
  ∀ n : N, (n < 2 ^ N.of_nat (S fuel))%N →
    to_digits (S fuel) n ≠ [] ∧
    Forall (λ d, d < 10)%N (to_digits (S fuel) n) ∧
    digits_value (to_digits (S fuel) n) = n.
Proof.
  induction fuel as [|fuel IH]; intros n Hn;
    rewrite to_digits_S; destruct (N.ltb_spec n 10) as [Hlt|Hge];
    try (split; [done|split; [by repeat constructor|done]]).
  - exfalso. change (2 ^ N.of_nat 1)%N with 2%N in Hn. lia.
  - assert (n / 10 < 2 ^ N.of_nat (S fuel))%N as Hdiv.
    { apply N.Div0.div_lt_upper_bound.
      rewrite (Nat2N.inj_succ (S fuel)), N.pow_succ_r' in Hn. lia. }
    destruct (IH _ Hdiv) as (Hne & Hall & Hval).
    split; [|split].
    + intros Heq. by apply app_eq_nil in Heq as [? _].
    + apply Forall_app; split; [done|].
      constructor; [|constructor]. apply N.mod_lt. lia.
    + unfold digits_value in *. rewrite foldl_app. cbn [foldl].
      rewrite Hval. pose proof (N.div_mod n 10). lia.
Qed.

Lemma decimal_digits_spec (n : N) :
  decimal_digits n ≠ [] ∧
  Forall (λ d, d < 10)%N (decimal_digits n) ∧
  digits_value (decimal_digits n) = n.
Proof.
  apply to_digits_spec.
  rewrite Nat2N.inj_succ, N2Nat.id.
  destruct n as [|p]; [done|]. apply N.log2_spec. lia.
Qed.

Lemma parse_digits_decimal (ds : list N) :
  Forall (λ d, d < 10)%N ds →
  ∀ a : N,
    parse_digits 10 (digits_to_string ds) (Some a)
    = Some (foldl (λ a d, a * 10 + d)%N a ds).
Proof.
  induction 1 as [|d ds Hd _ IH]; intros a; [done|].
  unfold digits_to_string in *. cbn [fmap list_fmap string_of_list_ascii].
  cbn [parse_digits]. rewrite digit_value_digit_char by done.
  cbn [default]. apply IH.
Qed.

Lemma parseInt_string_signed (ds : list N) (neg : bool) :
  ds ≠ [] → Forall (λ d, d < 10)%N ds →
  parseInt_string ((if neg then "-" else "") +:+ digits_to_string ds)
  = Int ((if neg then -1 else 1) * Z.of_N (digits_value ds)).
Proof.
  intros Hne Hall.
  destruct Hall as [|d ds Hd Hds]; [done|].
  destruct Hds as [|d2 ds2 Hd2 Hds2].
  - digit_cases d Hd; destruct neg; reflexivity.
  - pose proof (parse_digits_decimal ds2 Hds2) as Hparse.
    unfold digits_value, digits_to_string in *.
    cbn [fmap list_fmap string_of_list_ascii foldl].
    digit_cases d Hd; digit_cases d2 Hd2; destruct neg;
      unfold parseInt_string; simpl; rewrite Hparse; reflexivity.
Qed.

Lemma parseInt_Number_toString (z : Z) :
  - 10 ^ 21 < z < 10 ^ 21 →
  parseInt_string (Number_toString (Int z)) = Int z.
Proof.
  intros Hz. unfold Number_toString, N_toString.
  destruct (Z.ltb_spec z 0) as [Hneg|Hpos].
  - destruct (decimal_digits_spec (Z.to_N (- z))) as (Hne & Hall & Hval).
    destruct (N.ltb_spec (Z.to_N (- z)) (10 ^ 21)) as [_|Hbig]; [|lia].
    rewrite (parseInt_string_signed _ true Hne Hall), Hval. f_equal. lia.
  - destruct (decimal_digits_spec (Z.to_N z)) as (Hne & Hall & Hval).
    destruct (N.ltb_spec (Z.to_N z) (10 ^ 21)) as [_|Hbig]; [|lia].
    etrans; [exact (parseInt_string_signed _ false Hne Hall)|].
    rewrite Hval. f_equal. lia.
Qed.

(** Parsing a stored timestamp, and parsing the parsed number once more as
    [getToken] does, both give the timestamp back. *)
Lemma parseInt_twice (z : Z) :
  - 10 ^ 21 < z < 10 ^ 21 →
  parseInt_number (parseInt_string (Number_toString (Int z))) = Int z.
Proof.
  intros Hz. unfold parseInt_number.
  by rewrite !parseInt_Number_toString.
Qed.

(** From 10^21 on the stored text is in exponent notation, of which
    [parseInt] reads the leading digit only. *)
Example parseInt_exponent_notation :
  parseInt_string (Number_toString (Int (10 ^ 21))) = Int 1.
Proof. vm_compute. reflexivity. Qed.

(** ** The Token Store *)

Ltac unfold_M :=
  unfold mbind, M_bind, mret, M_ret,
    localStorage_getItem, localStorage_setItem, localStorage_removeItem,
    Date_now, alert, socket_emit, socket_on, throw,
    setMachineState, setBoxConfig, setMessages, setLanguage,
    get_machineState, idleTimerRef_current, idleTimerRef_current_reset,
    dynamic_import.

(** [getToken] only reads: it returns a value, never throws, and leaves the
    world as it was. *)
Lemma getToken_unfold (w : world) :
  getToken w =
  Returns
    (let expire := parseInt_string (item_to_string (localStorage w !! "expire")) in
     if strict_eq_null expire
        || number_le (parseInt_number expire) (Int (clock_ms w / 1000))
     then TokFalse
     else match localStorage w !! "token" with
          | Some token => TokString token
          | None => TokFalse
          end)
    w.
Proof.
  unfold getToken. unfold_M. cbv zeta.
  by destruct (strict_eq_null _ || number_le _ _).
Qed.

Lemma getToken_total (w : world) : ∃ r, getToken w = Returns r w.
Proof. rewrite getToken_unfold. eauto. Qed.

Lemma getToken_stored_expiry (w : world) (e : Z) :
  - 10 ^ 21 < e < 10 ^ 21 →
  localStorage w !! "expire" = Some (Number_toString (Int e)) →
  getToken w =
  Returns (if e <=? clock_ms w / 1000 then TokFalse
           else match localStorage w !! "token" with
                | Some token => TokString token
                | None => TokFalse
                end) w.
Proof.
  intros He Hexp. rewrite getToken_unfold, Hexp. cbv zeta.
  cbn [item_to_string]. unfold parseInt_number at 1.
  rewrite !parseInt_Number_toString by done. done.
Qed.

Lemma getToken_no_expiry (w : world) :
  localStorage w !! "expire" = None →
  getToken w =
  Returns (match localStorage w !! "token" with
           | Some token => TokString token
           | None => TokFalse
           end) w.
Proof. intros Hexp. by rewrite getToken_unfold, Hexp. Qed.

(** C1.  For a stored token with expiry [e] (a timestamp in seconds, stored
    as [storeToken] writes it) and any current time [now], [getToken]
    returns the stored token value when [now < e] and the token entry is
    present, and returns [false] (absent) when [now >= e]; at [now = e] the
    token already counts as expired.  The expiry ranges over the integers
    below 2^53 in absolute value, which a JavaScript number holds exactly
    and which contain every timestamp in seconds. *)
Theorem getToken_expiry (w : world) (e : Z) :
  - 2 ^ 53 < e < 2 ^ 53 →
  localStorage w !! "expire" = Some (Number_toString (Int e)) →
  let now := clock_ms w / 1000 in
  (∀ token, now < e → localStorage w !! "token" = Some token →
            getToken w = Returns (TokString token) w) ∧
  (e ≤ now → getToken w = Returns TokFalse w) ∧
  (e = now → getToken w = Returns TokFalse w).
Proof.
  intros He Hexp now.
  assert (- 10 ^ 21 < e < 10 ^ 21) as Hrange by lia.
  rewrite (getToken_stored_expiry w e Hrange Hexp).
  fold now. split; [|split].
  - intros token Hlt Htok. rewrite Htok.
    destruct (Z.leb_spec e now); [lia|done].
  - intros Hle. destruct (Z.leb_spec e now); [done|lia].
  - intros ->. by rewrite Z.leb_refl.
Qed.

Lemma getToken_expiry_witness :
  getToken (world_busy 199999) = Returns (TokString "T1") (world_busy 199999) ∧
  getToken (world_busy 200000) = Returns TokFalse (world_busy 200000) ∧
  getToken (world_busy 201000) = Returns TokFalse (world_busy 201000).
Proof.
  split; [|split].
  - destruct (getToken_expiry (world_busy 199999) 200) as (H & _ & _);
      [lia | vm_compute; reflexivity |].
    apply H; [vm_compute; reflexivity | vm_compute; reflexivity].
  - destruct (getToken_expiry (world_busy 200000) 200) as (_ & _ & H);
      [lia | vm_compute; reflexivity |].
    apply H. vm_compute; reflexivity.
  - destruct (getToken_expiry (world_busy 201000) 200) as (_ & H & _);
      [lia | vm_compute; reflexivity |].
    apply H. vm_compute; discriminate.
Defined.

(** C9.  A store that holds a token entry but no expire entry: the missing
    expiry reads as [null], which [parseInt] turns into [NaN]; [NaN] is
    neither strictly equal to [null] nor less than or equal to the current
    time, so [getToken] returns the token value: a token without a stored
    expiry is treated as valid. *)
Theorem getToken_missing_expire (w : world) (token : string) :
  localStorage w !! "expire" = None →
  localStorage w !! "token" = Some token →
  parseInt_string (item_to_string (localStorage w !! "expire")) = NaN ∧
  strict_eq_null NaN = false ∧
  number_le (parseInt_number NaN) (Int (clock_ms w / 1000)) = false ∧
  getToken w = Returns (TokString token) w.
Proof.
  intros Hexp Htok. rewrite (getToken_no_expiry w Hexp), Hexp, Htok.
  by repeat split.
Qed.

Lemma getToken_missing_expire_witness :
  let w := set_localStorage (<["token" := "T1"]> ∅) (world_busy 999999999000) in
  getToken w = Returns (TokString "T1") w.
Proof.
  intros w.
  destruct (getToken_missing_expire w "T1") as (_ & _ & _ & H);
    [vm_compute; reflexivity | vm_compute; reflexivity | exact H].
Defined.

(** ** The Action Relay *)

Lemma reset_idle_timer_unfold (w : world) :
  reset_idle_timer w =
  Returns ()
    (set_idleTimerRef (IdleTimer_reset (clock_ms w) <$> idleTimerRef w) w).
Proof.
  unfold reset_idle_timer. unfold_M.
  destruct w as [? ? ? ? ? ? ? ? ? [t|] ?]; reflexivity.
Qed.

(** C2.  [handleAction(action, data)]: when [getToken] gives [false] the
    access-denied alert is raised and nothing is emitted; when it gives a
    token the idle countdown is restarted (the deadline of the mounted timer
    moves to a full timeout from now) and exactly one message is emitted:
    the Reset event with the token only when [action] is "reset", otherwise
    the Action event with the token, the action name and the data. *)
Theorem handleAction_spec (action : string) (data : payload) (w : world) :
  (getToken w = Returns TokFalse w →
   handleAction action data w
   = Returns () (set_alerts (alerts w ++ [access_denied]) w)
   ∧ emitted (exec (handleAction action data) w) = emitted w) ∧
  (∀ token,
     getToken w = Returns (TokString token) w →
     handleAction action data w
     = Returns ()
         (set_emitted
            (emitted w ++
               [if bool_decide (action = "reset")
                then ClientEvent_Reset token
                else ClientEvent_Action action token data])
            (set_idleTimerRef
               (IdleTimer_reset (clock_ms w) <$> idleTimerRef w) w))) ∧
  (∀ t, deadline (IdleTimer_reset (clock_ms w) t) = clock_ms w + timeout t
        ∧ phase (IdleTimer_reset (clock_ms w) t) = Active).
Proof.
  split; [|split].
  - intros Htok. unfold exec, handleAction. unfold mbind, M_bind.
    rewrite Htok. done.
  - intros token Htok. unfold handleAction. unfold mbind, M_bind.
    rewrite Htok, reset_idle_timer_unfold.
    by destruct (bool_decide (action = "reset")).
  - done.
Qed.

Lemma handleAction_spec_witness :
  emitted (exec (handleAction "reset" "" ) (world_busy 201000))
  = emitted (world_busy 201000) ∧
  emitted (exec (handleAction "reset" "") (world_busy 100000))
  = [ClientReady "T1"; ClientEvent_Reset "T1"] ∧
  emitted (exec (handleAction "login" "{}") (world_busy 100000))
  = [ClientReady "T1"; ClientEvent_Action "login" "T1" "{}"] ∧
  deadline <$> idleTimerRef (exec (handleAction "login" "{}") (world_busy 110000))
  = Some 140000.
Proof.
  split; [|split; [|split]].
  - destruct (handleAction_spec "reset" "" (world_busy 201000)) as [H _].
    apply H. vm_compute; reflexivity.
  - destruct (handleAction_spec "reset" "" (world_busy 100000)) as (_ & H & _).
    unfold exec. rewrite (H "T1"); [reflexivity | vm_compute; reflexivity].
  - destruct (handleAction_spec "login" "{}" (world_busy 100000)) as (_ & H & _).
    unfold exec. rewrite (H "T1"); [reflexivity | vm_compute; reflexivity].
  - destruct (handleAction_spec "login" "{}" (world_busy 110000)) as (_ & H & _).
    unfold exec. rewrite (H "T1"); [reflexivity | vm_compute; reflexivity].
Defined.

(** ** The Idle Monitor *)

(** C3.  [handleIdle], called when the idle deadline is reached.  With a
    token, a Reset event is emitted exactly when the step of the machine
    state is not "initial"; on the initial step nothing is emitted and the
    idle countdown is restarted.  Without a token the access-denied alert
    is raised and the handler stops: no Reset is emitted. *)
Theorem handleIdle_spec (w : world) :
  (getToken w = Returns TokFalse w →
   handleIdle w = Returns () (set_alerts (alerts w ++ [access_denied]) w)
   ∧ emitted (exec handleIdle w) = emitted w) ∧
  (∀ token state,
     getToken w = Returns (TokString token) w →
     machineState w = Some state →
     (step state ≠ "initial" →
      handleIdle w
      = Returns () (set_emitted (emitted w ++ [ClientEvent_Reset token]) w)) ∧
     (step state = "initial" →
      handleIdle w
      = Returns ()
          (set_idleTimerRef (IdleTimer_reset (clock_ms w) <$> idleTimerRef w) w)
      ∧ emitted (exec handleIdle w) = emitted w) ∧
     (emitted (exec handleIdle w) = emitted w ++ [ClientEvent_Reset token]
      ↔ step state ≠ "initial")) ∧
  (∀ t, deadline (IdleTimer_reset (clock_ms w) t) = clock_ms w + timeout t
        ∧ phase (IdleTimer_reset (clock_ms w) t) = Active).
Proof.
  split; [|split; [|done]].
  - intros Htok. unfold exec, handleIdle. unfold mbind, M_bind.
    rewrite Htok. done.
  - intros token state Htok Hstate.
    assert (handleIdle w =
            if bool_decide (step state ≠ "initial")
            then Returns () (set_emitted (emitted w ++ [ClientEvent_Reset token]) w)
            else Returns ()
                   (set_idleTimerRef
                      (IdleTimer_reset (clock_ms w) <$> idleTimerRef w) w))
      as Heq.
    { unfold handleIdle. unfold mbind, M_bind. rewrite Htok.
      unfold get_machineState. rewrite Hstate.
      case_bool_decide; [done|]. apply reset_idle_timer_unfold. }
    unfold exec. rewrite Heq. split; [|split].
    + intros Hstep. by rewrite bool_decide_eq_true_2.
    + intros Hstep. by rewrite bool_decide_eq_false_2 by (by intros []).
    + case_bool_decide as Hstep; cbn [emitted set_emitted set_idleTimerRef].
      * done.
      * split; [|done]. intros Heq'.
        apply (f_equal length) in Heq'. rewrite length_app in Heq'.
        cbn in Heq'. lia.
Qed.

Lemma handleIdle_spec_witness :
  emitted (exec handleIdle (world_busy 201000)) = emitted (world_busy 201000) ∧
  emitted (exec handleIdle (world_busy 130000))
  = [ClientReady "T1"; ClientEvent_Reset "T1"] ∧
  emitted (exec handleIdle (world_home 130000)) = [ClientReady "T1"].
Proof.
  split; [|split].
  - destruct (handleIdle_spec (world_busy 201000)) as [H _].
    apply H. vm_compute; reflexivity.
  - destruct (handleIdle_spec (world_busy 130000)) as (_ & H & _).
    destruct (H "T1" {| step := "checkOutItems"; state_data := "" |})
      as (Heq & _ & _); [vm_compute; reflexivity | reflexivity |].
    unfold exec. rewrite Heq; [reflexivity | vm_compute; discriminate].
  - destruct (handleIdle_spec (world_home 130000)) as (_ & H & _).
    destruct (H "T1" {| step := "initial"; state_data := "" |})
      as (_ & Heq & _); [vm_compute; reflexivity | reflexivity |].
    apply Heq. reflexivity.
Defined.

(** ** The Session Negotiator *)

(** C5.  The reconnect listener reads the Token Store again.  Without a
    token it raises the access-denied alert and stops: no ClientReady is
    sent and nothing is scheduled for a retry.  With a token it sends
    ClientReady with that token. *)
Theorem on_reconnect_spec (uniqueId : string) (w : world) :
  listener uniqueId reconnect = on_reconnect ∧
  (getToken w = Returns TokFalse w →
   on_reconnect w = Returns () (set_alerts (alerts w ++ [access_denied]) w)
   ∧ emitted (exec on_reconnect w) = emitted w
   ∧ pending_imports (exec on_reconnect w) = pending_imports w
   ∧ listeners (exec on_reconnect w) = listeners w) ∧
  (∀ token,
     getToken w = Returns (TokString token) w →
     on_reconnect w
     = Returns () (set_emitted (emitted w ++ [ClientReady token]) w)).
Proof.
  split; [done|]. split.
  - intros Htok. unfold exec, on_reconnect. unfold mbind, M_bind.
    rewrite Htok. done.
  - intros token Htok. unfold on_reconnect. unfold mbind, M_bind.
    by rewrite Htok.
Qed.

Lemma on_reconnect_spec_witness :
  alerts (exec on_reconnect (initial_world ∅ 100000)) = [access_denied] ∧
  emitted (exec on_reconnect (initial_world ∅ 100000)) = [] ∧
  emitted (exec on_reconnect (initial_world storage_T1 100000))
  = [ClientReady "T1"].
Proof.
  destruct (on_reconnect_spec "A" (initial_world ∅ 100000)) as (_ & H & _).
  destruct H as (Heq & Hem & _); [vm_compute; reflexivity|].
  destruct (on_reconnect_spec "A" (initial_world storage_T1 100000)) as (_ & _ & H).
  specialize (H "T1"). unfold exec in *.
  rewrite Heq, H; [|vm_compute; reflexivity]. by repeat split.
Defined.

Lemma removeToken_unfold (w : world) :
  removeToken w =
  Returns ()
    (set_localStorage
       (delete "uniqueId" (delete "expire" (delete "token" (localStorage w)))) w).
Proof. reflexivity. Qed.

Lemma drop_foreign_token_unfold (uniqueId : string) (w : world) :
  drop_foreign_token uniqueId w =
  Returns ()
    (if bool_decide (localStorage w !! "uniqueId" ≠ Some uniqueId)
     then set_localStorage
            (delete "uniqueId"
               (delete "expire" (delete "token" (localStorage w)))) w
     else w).
Proof.
  unfold drop_foreign_token. unfold_M.
  case_bool_decide; [apply removeToken_unfold | done].
Qed.

Lemma negotiate_session_unfold (uniqueId : string) (w : world) (r : token_or_false) :
  getToken w = Returns r w →
  negotiate_session uniqueId w =
  Returns ()
    (set_emitted
       (emitted w ++
          [match r with
           | TokFalse => GetToken uniqueId
           | TokString token => ClientReady token
           end]) w).
Proof.
  intros Htok. unfold negotiate_session. unfold mbind, M_bind.
  rewrite Htok. by destruct r.
Qed.

Lemma register_listeners_unfold (w : world) :
  register_listeners w =
  Returns ()
    (set_listeners
       (listeners w ++ ["Token"; "reconnect"; "Configuration"; "UpdateState"])
       w).
Proof.
  unfold register_listeners. unfold_M. cbn.
  by rewrite <- !app_assoc.
Qed.

(** The whole mount effect in one equation. *)
Lemma useEffect_unfold (uniqueId : string) (w : world) (r : token_or_false) :
  let w1 := exec (drop_foreign_token uniqueId) w in
  getToken w1 = Returns r w1 →
  useEffect uniqueId w =
  Returns ()
    (set_listeners
       (listeners w ++ ["Token"; "reconnect"; "Configuration"; "UpdateState"])
       (set_emitted
          (emitted w ++
             [match r with
              | TokFalse => GetToken uniqueId
              | TokString token => ClientReady token
              end]) w1)).
Proof.
  intros w1 Htok. unfold useEffect. unfold mbind at 1 2, M_bind.
  subst w1. unfold exec in *.
  rewrite drop_foreign_token_unfold in *.
  rewrite (negotiate_session_unfold _ _ r Htok), register_listeners_unfold.
  by case_bool_decide.
Qed.

(** C6.  When the component mounts and the channel is there, exactly one
    message is sent, chosen by what [getToken] returns at that point (after
    the check of the stored configuration id): GetToken with the
    configuration's unique id when it returns [false], ClientReady with the
    token when it returns one.  When the stored id is the loaded one, the
    store [getToken] reads is the store the page was loaded with. *)
Theorem useEffect_negotiation (uniqueId : string) (w : world) :
  let w1 := exec (drop_foreign_token uniqueId) w in
  let sent := emitted (exec (useEffect uniqueId) w) in
  (getToken w1 = Returns TokFalse w1 → sent = emitted w ++ [GetToken uniqueId]) ∧
  (∀ token, getToken w1 = Returns (TokString token) w1 →
            sent = emitted w ++ [ClientReady token]) ∧
  (∃ m, sent = emitted w ++ [m]) ∧
  (localStorage w !! "uniqueId" = Some uniqueId → w1 = w).
Proof.
  intros w1 sent.
  assert (∀ r, getToken w1 = Returns r w1 →
               sent = emitted w ++
                        [match r with
                         | TokFalse => GetToken uniqueId
                         | TokString token => ClientReady token
                         end]) as Hsent.
  { intros r Htok. subst sent. unfold exec at 1.
    by rewrite (useEffect_unfold _ _ _ Htok). }
  split; [|split; [|split]].
  - intros Htok. apply (Hsent _ Htok).
  - intros token Htok. apply (Hsent _ Htok).
  - destruct (getToken_total w1) as [r Htok]. eauto.
  - intros Hid. subst w1. unfold exec.
    rewrite drop_foreign_token_unfold.
    by rewrite bool_decide_eq_false_2 by (by intros []).
Qed.

Lemma useEffect_negotiation_witness :
  emitted (exec (useEffect "A") (initial_world ∅ 100000)) = [GetToken "A"] ∧
  emitted (exec (useEffect "A") (initial_world storage_T1 100000))
  = [ClientReady "T1"] ∧
  exec (drop_foreign_token "A") (initial_world storage_T1 100000)
  = initial_world storage_T1 100000.
Proof.
  split; [|split].
  - destruct (useEffect_negotiation "A" (initial_world ∅ 100000)) as (H & _).
    apply H. vm_compute; reflexivity.
  - destruct (useEffect_negotiation "A" (initial_world storage_T1 100000))
      as (_ & H & _).
    apply (H "T1"). vm_compute; reflexivity.
  - destruct (useEffect_negotiation "A" (initial_world storage_T1 100000))
      as (_ & _ & _ & H).
    apply H. vm_compute; reflexivity.
Defined.

(** C4.  When the configuration id kept in the store is not the id being
    loaded, the mount effect first removes the token, expire and uniqueId
    entries, with nothing sent yet; the negotiation that follows runs on
    the cleared store and sends GetToken with the loaded id, so no
    ClientReady with the old token leaves the client. *)
Theorem useEffect_clears_foreign_token (uniqueId : string) (w : world) :
  localStorage w !! "uniqueId" ≠ Some uniqueId →
  ∃ w1,
    drop_foreign_token uniqueId w = Returns () w1 ∧
    localStorage w1 !! "token" = None ∧
    localStorage w1 !! "expire" = None ∧
    localStorage w1 !! "uniqueId" = None ∧
    emitted w1 = emitted w ∧
    negotiate_session uniqueId w1
    = Returns () (set_emitted (emitted w ++ [GetToken uniqueId]) w1) ∧
    emitted (exec (useEffect uniqueId) w) = emitted w ++ [GetToken uniqueId] ∧
    localStorage (exec (useEffect uniqueId) w) = localStorage w1.
Proof.
  intros Hid.
  set (w1 := set_localStorage
               (delete "uniqueId"
                  (delete "expire" (delete "token" (localStorage w)))) w).
  assert (drop_foreign_token uniqueId w = Returns () w1) as Hdrop.
  { rewrite drop_foreign_token_unfold. by rewrite bool_decide_eq_true_2. }
  assert (localStorage w1 !! "token" = None) as Htoken.
  { subst w1. cbn [localStorage set_localStorage].
    rewrite !lookup_delete_ne by done. apply lookup_delete_eq. }
  assert (localStorage w1 !! "expire" = None) as Hexpire.
  { subst w1. cbn [localStorage set_localStorage].
    rewrite lookup_delete_ne by done. apply lookup_delete_eq. }
  assert (getToken w1 = Returns TokFalse w1) as Htok.
  { by rewrite (getToken_no_expiry w1 Hexpire), Htoken. }
  exists w1. repeat split; try done.
  - apply lookup_delete_eq.
  - apply (negotiate_session_unfold uniqueId w1 TokFalse Htok).
  - unfold exec at 1.
    assert (exec (drop_foreign_token uniqueId) w = w1) as Hw1
      by (unfold exec; by rewrite Hdrop).
    rewrite (useEffect_unfold uniqueId w TokFalse); by rewrite Hw1.
  - unfold exec at 1.
    assert (exec (drop_foreign_token uniqueId) w = w1) as Hw1
      by (unfold exec; by rewrite Hdrop).
    rewrite (useEffect_unfold uniqueId w TokFalse); by rewrite Hw1.
Qed.

Lemma useEffect_clears_foreign_token_witness :
  emitted (exec (useEffect "B") (initial_world storage_T1 100000))
  = [GetToken "B"] ∧
  localStorage (exec (useEffect "B") (initial_world storage_T1 100000)) = ∅.
Proof.
  destruct (useEffect_clears_foreign_token "B" (initial_world storage_T1 100000))
    as (w1 & Hdrop & _ & _ & _ & _ & _ & Hsent & Hstore);
    [vm_compute; discriminate|].
  split; [exact Hsent|].
  rewrite Hstore. vm_compute in Hdrop. injection Hdrop as <-. reflexivity.
Defined.

(** ** Language bundles *)

Lemma loadTranslations_unfold (languageCode : string) (w : world) :
  loadTranslations languageCode w =
  Returns ()
    (set_pending_imports
       (pending_imports w ++
          [{| import_path :=
                lang_path (if bool_decide (languageCode ∈ supportedLanguageCodes)
                           then languageCode else "en");
              import_languageCode := languageCode |}]) w).
Proof. reflexivity. Qed.

(** A configuration message followed by the resolution of the import it
    started: the catalog is the module of the selected bundle, the locale is
    the language code of the configuration, and nothing is raised. *)
Lemma configuration_then_import (data : BoxConfig) (w : world) :
  let code := defaultLanguageCode data in
  ∃ w1 w2,
    on_Configuration data w = Returns () w1 ∧
    import_resolved (length (pending_imports w)) w1 = Returns () w2 ∧
    boxConfig w2 = Some data ∧
    messages w2
    = Some {| module_path :=
                lang_path (if bool_decide (code ∈ supportedLanguageCodes)
                           then code else "en") |} ∧
    language w2 = code ∧
    alerts w2 = alerts w ∧
    pending_imports w2 = pending_imports w.
Proof.
  intros code. eexists _, _. split; [|split].
  - unfold on_Configuration. unfold mbind, M_bind.
    rewrite loadTranslations_unfold. reflexivity.
  - unfold import_resolved.
    cbn [pending_imports set_pending_imports set_boxConfig].
    rewrite lookup_app_r, Nat.sub_diag by done. cbn [lookup list_lookup].
    reflexivity.
  - cbn. repeat split; try done.
    rewrite delete_middle. apply app_nil_r.
Qed.

(** C8.  A configuration message whose default language code is not one of
    the supported codes makes the client import the English bundle; the
    handler and the import callback return normally and no alert is raised.
    A supported code imports the bundle of that code. *)
Theorem on_Configuration_bundle (data : BoxConfig) (w : world) :
  let code := defaultLanguageCode data in
  let w1 := exec (on_Configuration data) w in
  let w2 := exec (import_resolved (length (pending_imports w))) w1 in
  on_Configuration data w = Returns () w1 ∧
  import_resolved (length (pending_imports w)) w1 = Returns () w2 ∧
  alerts w2 = alerts w ∧
  (code ∉ supportedLanguageCodes →
   messages w2 = Some {| module_path := "../../public/lang/en-comp.json" |}) ∧
  (code ∈ supportedLanguageCodes →
   messages w2 = Some {| module_path := lang_path code |}).
Proof.
  intros code w1 w2.
  destruct (configuration_then_import data w)
    as (w1' & w2' & H1 & H2 & _ & Hmsg & _ & Halerts & _).
  assert (w1 = w1') as -> by (subst w1; unfold exec; by rewrite H1).
  assert (w2 = w2') as -> by (subst w2; unfold exec; by rewrite H2).
  fold code in Hmsg. repeat split; try done.
  - intros Hcode. by rewrite Hmsg, bool_decide_eq_false_2.
  - intros Hcode. by rewrite Hmsg, bool_decide_eq_true_2.
Qed.

Lemma on_Configuration_bundle_witness :
  messages (exec (import_resolved 0)
              (exec (on_Configuration config_fr) (initial_world ∅ 0)))
  = Some {| module_path := "../../public/lang/en-comp.json" |} ∧
  messages (exec (import_resolved 0)
              (exec (on_Configuration config_da) (initial_world ∅ 0)))
  = Some {| module_path := "../../public/lang/da-comp.json" |}.
Proof.
  split.
  - destruct (on_Configuration_bundle config_fr (initial_world ∅ 0))
      as (_ & _ & _ & H & _).
    apply H. intros Hin. apply (bool_decide_pack _) in Hin. vm_compute in Hin. exact Hin.
  - destruct (on_Configuration_bundle config_da (initial_world ∅ 0))
      as (_ & _ & _ & _ & H).
    apply H. apply (bool_decide_unpack _). vm_compute. exact I.
Defined.

Lemma string_length_append (s1 s2 : string) :
  String.length (s1 +:+ s2) = (String.length s1 + String.length s2)%nat.
Proof. induction s1 as [|c s1 IH]; [done | exact (f_equal S IH)]. Qed.

(** C10.  After a configuration message with an unsupported default
    language code and the resolution of its import, the locale handed to
    the message formatter is that unsupported code, not "en", while the
    catalog is the English bundle: locale and catalog language differ. *)
Theorem unsupported_language_locale (data : BoxConfig) (w : world) :
  let code := defaultLanguageCode data in
  let w1 := exec (on_Configuration data) w in
  let w2 := exec (import_resolved (length (pending_imports w))) w1 in
  code ∉ supportedLanguageCodes →
  language w2 = code ∧
  language w2 ≠ "en" ∧
  messages w2 = Some {| module_path := lang_path "en" |} ∧
  messages w2 ≠ Some {| module_path := lang_path (language w2) |}.
Proof.
  intros code w1 w2 Hcode.
  destruct (configuration_then_import data w)
    as (w1' & w2' & H1 & H2 & _ & Hmsg & Hlang & _).
  assert (w1 = w1') as -> by (subst w1; unfold exec; by rewrite H1).
  assert (w2 = w2') as -> by (subst w2; unfold exec; by rewrite H2).
  fold code in Hmsg, Hlang.
  rewrite bool_decide_eq_false_2 in Hmsg by done.
  assert (code ≠ "en") as Hen.
  { intros ->. apply Hcode. unfold supportedLanguageCodes. set_solver. }
  rewrite Hmsg, Hlang. repeat split; try done.
  intros [= Heq]. apply Hen. clear -Heq.
  change ("en-comp.json" = code +:+ "-comp.json") in Heq.
  assert (String.length (code +:+ "-comp.json") = 12%nat) as Hlen
    by by rewrite <- Heq.
  rewrite string_length_append in Hlen. cbn in Hlen.
  destruct code as [|a [|b [|c code]]]; cbn in Hlen; try (exfalso; lia).
  by injection Heq as <- <-.
Qed.

Lemma unsupported_language_locale_witness :
  let w2 := exec (import_resolved 0)
              (exec (on_Configuration config_fr) (initial_world ∅ 0)) in
  language w2 = "fr" ∧
  messages w2 = Some {| module_path := "../../public/lang/en-comp.json" |}.
Proof.
  intros w2.
  destruct (unsupported_language_locale config_fr (initial_world ∅ 0))
    as (H1 & _ & H2 & _).
  - intros Hin. apply (bool_decide_pack _) in Hin. vm_compute in Hin. exact Hin.
  - split; [exact H1 | exact H2].
Defined.

(** ** Idle periods *)

Lemma resets_emitted_snoc_Reset (w w' : world) (token : string) :
  emitted w' = emitted w ++ [ClientEvent_Reset token] →
  resets_emitted w' = S (resets_emitted w).
Proof.
  intros Heq. unfold resets_emitted. rewrite Heq, filter_app, length_app.
  rewrite filter_cons_True by done. cbn. lia.
Qed.

(** A quiescent monitor lets time pass: nothing is called. *)
Lemma tick_quiescent (dt : N) (w : world) :
  quiescent w →
  exec (tick dt) w = set_clock_ms (clock_ms w + Z.of_N dt) w.
Proof.
  unfold quiescent, exec, tick. cbn [idleTimerRef set_clock_ms].
  destruct (idleTimerRef w) as [t|]; [|done].
  intros Hphase. unfold IdleTimer_due. by rewrite Hphase.
Qed.

(** One tick either sends nothing, or sends one Reset and leaves the
    monitor Idle-triggered. *)
Lemma tick_cases (dt : N) (w : world) :
  emitted (exec (tick dt) w) = emitted w ∨
  (∃ token, emitted (exec (tick dt) w) = emitted w ++ [ClientEvent_Reset token])
  ∧ quiescent (exec (tick dt) w).
Proof.
  unfold exec, tick. cbn [idleTimerRef set_clock_ms].
  destruct (idleTimerRef w) as [t|]; [|by left].
  destruct (IdleTimer_due _ t); [|by left].
  set (w0 := set_idleTimerRef _ _).
  unfold handleIdle. unfold mbind, M_bind.
  destruct (getToken_total w0) as [[|token] ->]; [by left|].
  unfold get_machineState.
  destruct (machineState w0) as [state|]; [|by left].
  case_bool_decide.
  - right. split; [by exists token|]. by unfold quiescent.
  - left. by rewrite reset_idle_timer_unfold.
Qed.

Lemma run_cons_Tick (uniqueId : string) (dt : N) (dts : list N) (w : world) :
  run uniqueId (Tick <$> dt :: dts) w
  = run uniqueId (Tick <$> dts) (exec (tick dt) w).
Proof. reflexivity. Qed.

Lemma run_ticks_quiescent (uniqueId : string) (dts : list N) :
  ∀ w, quiescent w →
       emitted (run uniqueId (Tick <$> dts) w) = emitted w.
Proof.
  induction dts as [|dt dts IH]; intros w Hq; [done|].
  rewrite run_cons_Tick, (tick_quiescent dt w Hq). by rewrite IH.
Qed.

(** C7.  Whatever happened before (any number of activity pulses, state
    updates and actions), a period in which only time passes adds at most
    one Reset event to what the client has sent. *)
Theorem idle_period_single_reset (uniqueId : string)
    (before : list event) (idle : list N) (w0 : world) :
  let w := run uniqueId before w0 in
  (resets_emitted (run uniqueId (Tick <$> idle) w) ≤ resets_emitted w + 1)%nat.
Proof.
  intros w. generalize w. clear w. 
  induction idle as [|dt idle IH]; intros w; [cbn; lia|].
  rewrite run_cons_Tick.
  destruct (tick_cases dt w) as [Hsame|[[token Hsent] Hq]].
  - specialize (IH (exec (tick dt) w)).
    unfold resets_emitted in *. rewrite Hsame in IH. exact IH.
  - unfold resets_emitted at 1.
    rewrite (run_ticks_quiescent uniqueId idle _ Hq).
    fold (resets_emitted (exec (tick dt) w)).
    rewrite (resets_emitted_snoc_Reset w _ token Hsent). lia.
Qed.

(** A loan left alone: the first deadline sends the one Reset, later ticks
    send nothing more. *)
Example idle_period_busy :
  emitted (run "A" (Tick <$> [30000; 30000; 30000]%N) (world_busy 100000))
  = [ClientReady "T1"; ClientEvent_Reset "T1"].
Proof. vm_compute. reflexivity. Qed.

(** The home screen left alone: the countdown restarts at each deadline and
    no Reset is sent; once the token has expired the alert is raised. *)
Example idle_period_home :
  let w := run "A" (Tick <$> [30000; 30000; 30000; 30000]%N) (world_home 100000) in
  emitted w = [ClientReady "T1"] ∧ alerts w = [access_denied].
Proof. vm_compute. split; reflexivity. Qed.

(** Pulses before the deadline only move it. *)
Example idle_period_after_pulses :
  emitted (run "A" ([Tick 29000; Pulse; Tick 29000; Pulse; Pulse]
                    ++ (Tick <$> [30000; 30000]%N))
             (world_busy 100000))
  = [ClientReady "T1"; ClientEvent_Reset "T1"].
Proof. vm_compute. reflexivity. Qed.

(** ** Scenarios of the specification *)

Lemma storeToken_unfold (uniqueId token : string) (expire : number) (w : world) :
  storeToken uniqueId token expire w =
  Returns ()
    (set_localStorage
       (<["uniqueId" := uniqueId]>
          (<["expire" := Number_toString expire]>
             (<["token" := token]> (localStorage w)))) w).
Proof. reflexivity. Qed.

(** A token stored by [storeToken] is returned until its expiry and absent
    from then on. *)
Lemma storeToken_then_getToken (uniqueId token : string) (e now_ms : Z)
    (w : world) :
  - 10 ^ 21 < e < 10 ^ 21 →
  let w' := set_clock_ms now_ms (exec (storeToken uniqueId token (Int e)) w) in
  getToken w'
  = Returns (if e <=? now_ms / 1000 then TokFalse else TokString token) w'.
Proof.
  intros He w'.
  assert (localStorage w' !! "expire" = Some (Number_toString (Int e))) as Hexp.
  { subst w'. unfold exec. rewrite storeToken_unfold.
    cbn [localStorage set_clock_ms set_localStorage].
    rewrite lookup_insert_ne by done. apply lookup_insert_eq. }
  assert (localStorage w' !! "token" = Some token) as Htok.
  { subst w'. unfold exec. rewrite storeToken_unfold.
    cbn [localStorage set_clock_ms set_localStorage].
    rewrite !lookup_insert_ne by done. apply lookup_insert_eq. }
  by rewrite (getToken_stored_expiry w' e He Hexp), Htok.
Qed.

(** Outside that range the stored text is in exponent notation and the
    token counts as expired long before its expiry. *)
Example storeToken_exponent_expiry :
  let w := exec (storeToken "A" "T1" (Int (10 ^ 21))) (initial_world ∅ 1000000) in
  localStorage w !! "expire" = Some "1e+21" ∧
  getToken w = Returns TokFalse w.
Proof. vm_compute. split; reflexivity. Qed.

(** Token T1 stored at second 1000 with expiry 1100 for configuration A:
    returned at once, absent at second 1101. *)
Example scenario_T1 :
  let w := exec (storeToken "A" "T1" (Int 1100)) (initial_world ∅ 1000000) in
  getToken w = Returns (TokString "T1") w ∧
  getToken (set_clock_ms 1101000 w) = Returns TokFalse (set_clock_ms 1101000 w).
Proof. vm_compute. split; reflexivity. Qed.

(** A first page load, the token issued by the server, and a reconnect. *)
Example scenario_session :
  emitted (run "A" [Mount; Receive (Token "T1" (Int 1100)); Receive reconnect]
             (initial_world ∅ 1000000))
  = [GetToken "A"; ClientReady "T1"; ClientReady "T1"].
Proof. vm_compute. reflexivity. Qed.

(** Reconnect with no stored token: alert, no ClientReady. *)
Example scenario_reconnect_without_token :
  let w := run "A" [Mount; Receive reconnect] (initial_world ∅ 1000000) in
  emitted w = [GetToken "A"] ∧ alerts w = [access_denied].
Proof. vm_compute. split; reflexivity. Qed.

(** An action sent just before the deadline defers it by a full timeout. *)
Example scenario_action_defers_deadline :
  deadline <$> idleTimerRef (run "A" [Tick 29999; UserAction "login" "{}"]
                               (world_busy 100000))
  = Some (129999 + 30000).
Proof. vm_compute. reflexivity. Qed.

(** ** The idle timer and the kiosk screen *)

Lemma render_mounted (w : world) : mounted_with_screen (render w).
Proof.
  unfold mounted_with_screen, render. rewrite !is_Some_alt.
  destruct (machineState w) as [state|] eqn:Hstate;
    [destruct (boxConfig w) as [config|] eqn:Hconfig|];
    cbn; rewrite ?Hstate, ?Hconfig; tauto.
Qed.

Lemma exec_reset_idle_timer (w : world) :
  exec reset_idle_timer w
  = set_idleTimerRef (IdleTimer_reset (clock_ms w) <$> idleTimerRef w) w.
Proof. unfold exec. by rewrite reset_idle_timer_unfold. Qed.

(** Every event leaves the timer mounted exactly when the kiosk screen is
    rendered; in particular [handleAction] and [handleIdle] are only ever
    called with a mounted timer. *)
Lemma handle_mounted (uniqueId : string) (ev : event) (w : world) :
  mounted_with_screen w → mounted_with_screen (handle uniqueId ev w).
Proof.
  intros Hw. destruct ev as [|e|action data|n| |dt]; cbn [handle].
  - apply render_mounted.
  - case_bool_decide; [apply render_mounted | done].
  - destruct (machineState w), (boxConfig w); try done. apply render_mounted.
  - apply render_mounted.
  - rewrite exec_reset_idle_timer. unfold mounted_with_screen in *. cbn.
    by rewrite fmap_is_Some.
  - unfold exec, tick. cbn [idleTimerRef set_clock_ms].
    destruct (idleTimerRef w) as [t|] eqn:Href; [|done].
    destruct (IdleTimer_due _ t); [|done].
    set (w0 := set_idleTimerRef _ _).
    assert (mounted_with_screen w0) as Hw0.
    { unfold mounted_with_screen in *. subst w0. cbn.
      rewrite <- Hw, Href, !is_Some_alt. tauto. }
    unfold handleIdle. unfold mbind, M_bind.
    destruct (getToken_total w0) as [[|token] ->]; [done|].
    unfold get_machineState.
    destruct (machineState w0) as [state|] eqn:Hstate; [|done].
    case_bool_decide; [done|].
    rewrite reset_idle_timer_unfold.
    unfold mounted_with_screen in *. cbn.
    rewrite !is_Some_alt in *. rewrite Href in Hw. tauto.
Qed.

Lemma run_mounted (uniqueId : string) (evs : list event) :
  ∀ w, mounted_with_screen w → mounted_with_screen (run uniqueId evs w).
Proof.
  induction evs as [|ev evs IH]; intros w Hw; [done|].
  apply IH, handle_mounted, Hw.
Qed.

(** ** The Token Store: store, clear and read together *)

(** X1.  What [storeToken] has written is what [getToken] reads back: the token
    is returned at every time before the expiry it was stored with, and no
    token is returned from the expiry on, whatever configuration id and
    token value were stored. *)
Theorem storeToken_getToken_roundtrip (uniqueId token : string)
    (e now_ms : Z) (w : world) :
  - 10 ^ 21 < e < 10 ^ 21 →
  let w' := set_clock_ms now_ms (exec (storeToken uniqueId token (Int e)) w) in
  (now_ms / 1000 < e → getToken w' = Returns (TokString token) w') ∧
  (e ≤ now_ms / 1000 → getToken w' = Returns TokFalse w').
Proof.
  intros He w'.
  pose proof (storeToken_then_getToken uniqueId token e now_ms w He) as Hget.
  fold w' in Hget. rewrite Hget.
  destruct (Z.leb_spec e (now_ms / 1000)); split; intros; (done || lia).
Qed.

Lemma storeToken_getToken_roundtrip_witness :
  let w := exec (storeToken "A" "T1" (Int 1100)) (initial_world ∅ 1000000) in
  getToken (set_clock_ms 1099999 w)
  = Returns (TokString "T1") (set_clock_ms 1099999 w) ∧
  getToken (set_clock_ms 1100000 w) = Returns TokFalse (set_clock_ms 1100000 w).
Proof.
  intros w. split.
  - destruct (storeToken_getToken_roundtrip "A" "T1" 1100 1099999
                (initial_world ∅ 1000000)) as [H _]; [lia|].
    apply H. vm_compute. reflexivity.
  - destruct (storeToken_getToken_roundtrip "A" "T1" 1100 1100000
                (initial_world ∅ 1000000)) as [_ H]; [lia|].
    apply H. vm_compute. discriminate.
Defined.

Lemma getToken_no_token (w : world) :
  localStorage w !! "token" = None →
  getToken w = Returns TokFalse w.
Proof.
  intros Htok. rewrite getToken_unfold, Htok. cbv zeta.
  by destruct (strict_eq_null _ || number_le _ _).
Qed.

Lemma removeToken_lookup (w : world) (key : string) :
  key ∈ token_keys →
  delete "uniqueId" (delete "expire" (delete "token" (localStorage w))) !! key
  = None.
Proof.
  intros Hkey. unfold token_keys in Hkey.
  repeat (apply elem_of_cons in Hkey as [->|Hkey]);
    [| |by apply lookup_delete_eq|by apply elem_of_nil in Hkey].
  - rewrite !lookup_delete_ne by done. apply lookup_delete_eq.
  - rewrite lookup_delete_ne by done. apply lookup_delete_eq.
Qed.

Lemma exec_removeToken (w : world) :
  exec removeToken w
  = set_localStorage
      (delete "uniqueId" (delete "expire" (delete "token" (localStorage w)))) w.
Proof. reflexivity. Qed.

Lemma exec_storeToken (uniqueId token : string) (expire : number) (w : world) :
  exec (storeToken uniqueId token expire) w
  = set_localStorage
      (<["uniqueId" := uniqueId]>
         (<["expire" := Number_toString expire]>
            (<["token" := token]> (localStorage w)))) w.
Proof. reflexivity. Qed.

(** X2.  After [removeToken] no token is found at any time, the three entries
    are gone, and every other entry of the store is as before. *)
Theorem removeToken_then_getToken (now_ms : Z) (w : world) :
  let w' := set_clock_ms now_ms (exec removeToken w) in
  getToken w' = Returns TokFalse w' ∧
  (∀ key, key ∈ token_keys → localStorage w' !! key = None) ∧
  (∀ key, key ∉ token_keys → localStorage w' !! key = localStorage w !! key).
Proof.
  intros w'.
  assert (∀ key, key ∈ token_keys → localStorage w' !! key = None) as Hgone.
  { intros key Hkey. subst w'. rewrite exec_removeToken.
    cbn [localStorage set_clock_ms set_localStorage].
    by apply removeToken_lookup. }
  split; [|split; [done|]].
  - assert (localStorage w' !! "expire" = None) as Hexp
      by (apply Hgone; unfold token_keys; set_solver).
    assert (localStorage w' !! "token" = None) as Htok
      by (apply Hgone; unfold token_keys; set_solver).
    by rewrite (getToken_no_expiry w' Hexp), Htok.
  - intros key Hkey. subst w'. rewrite exec_removeToken.
    cbn [localStorage set_clock_ms set_localStorage].
    unfold token_keys in Hkey.
    rewrite !lookup_delete_ne; [done|set_solver..].
Qed.

(** X3.  [storeToken] replaces what an earlier [storeToken] wrote, writes the
    three entries it is given, and leaves every other entry alone. *)
Theorem storeToken_overwrites (id1 id2 token1 token2 : string)
    (expire1 expire2 : number) (w : world) :
  let w' := exec (storeToken id2 token2 expire2)
              (exec (storeToken id1 token1 expire1) w) in
  w' = exec (storeToken id2 token2 expire2) w ∧
  localStorage w' !! "token" = Some token2 ∧
  localStorage w' !! "expire" = Some (Number_toString expire2) ∧
  localStorage w' !! "uniqueId" = Some id2 ∧
  (∀ key, key ∉ token_keys → localStorage w' !! key = localStorage w !! key).
Proof.
  intros w'. subst w'. rewrite !exec_storeToken.
  cbn [localStorage set_localStorage].
  split; [|split; [|split; [|split]]].
  - unfold set_localStorage. cbn. f_equal. apply map_eq. intros key.
    destruct (decide ("uniqueId" = key)) as [<-|]; [by rewrite !lookup_insert_eq|].
    rewrite !(lookup_insert_ne _ "uniqueId") by done.
    destruct (decide ("expire" = key)) as [<-|]; [by rewrite !lookup_insert_eq|].
    rewrite !(lookup_insert_ne _ "expire") by done.
    destruct (decide ("token" = key)) as [<-|]; [by rewrite !lookup_insert_eq|].
    rewrite !lookup_insert_ne by done. done.
  - rewrite !lookup_insert_ne by done. apply lookup_insert_eq.
  - rewrite lookup_insert_ne by done. apply lookup_insert_eq.
  - apply lookup_insert_eq.
  - intros key Hkey. unfold token_keys in Hkey.
    rewrite !lookup_insert_ne; [done|set_solver..].
Qed.

(** Without a token entry no token is found, whatever the expire entry
    says. *)
Theorem getToken_missing_token (w : world) :
  localStorage w !! "token" = None →
  getToken w = Returns TokFalse w.
Proof. intros Htok. by apply getToken_no_token. Qed.

Lemma getToken_missing_token_witness :
  let w := set_localStorage (<["expire" := "99999999999"]> ∅) (world_busy 100000) in
  getToken w = Returns TokFalse w.
Proof.
  intros w. apply getToken_missing_token. vm_compute. reflexivity.
Defined.

(** X4.  An expire entry that [parseInt] cannot read as a number (such as
    "undefined", "null" or the empty text) never makes the token expire. *)
Theorem getToken_unreadable_expire (w : world) (text token : string) :
  parseInt_string text = NaN →
  localStorage w !! "expire" = Some text →
  localStorage w !! "token" = Some token →
  ∀ now_ms,
    getToken (set_clock_ms now_ms w)
    = Returns (TokString token) (set_clock_ms now_ms w).
Proof.
  intros Hnan Hexp Htok now_ms. rewrite getToken_unfold.
  cbn [localStorage set_clock_ms clock_ms]. rewrite Hexp, Htok.
  cbn [item_to_string]. cbv zeta. by rewrite Hnan.
Qed.

Lemma getToken_unreadable_expire_witness :
  let w := set_localStorage
             (<["expire" := "undefined"]> (<["token" := "T1"]> ∅))
             (world_busy 0) in
  getToken (set_clock_ms 99999999999000 w)
  = Returns (TokString "T1") (set_clock_ms 99999999999000 w).
Proof.
  intros w.
  apply (getToken_unreadable_expire w "undefined" "T1");
    vm_compute; reflexivity.
Defined.

(** ** Sessions: from the issued token to later messages *)

(** The mount effect on a store that belongs to another configuration. *)
Lemma useEffect_clears_foreign_token_aux (uniqueId : string) (w : world) :
  localStorage w !! "uniqueId" ≠ Some uniqueId →
  emitted (exec (useEffect uniqueId) w) = emitted w ++ [GetToken uniqueId] ∧
  localStorage (exec (useEffect uniqueId) w)
  = delete "uniqueId" (delete "expire" (delete "token" (localStorage w))).
Proof.
  intros Hid.
  set (w1 := set_localStorage
               (delete "uniqueId"
                  (delete "expire" (delete "token" (localStorage w)))) w).
  assert (exec (drop_foreign_token uniqueId) w = w1) as Hw1.
  { unfold exec. rewrite drop_foreign_token_unfold.
    by rewrite bool_decide_eq_true_2. }
  assert (getToken w1 = Returns TokFalse w1) as Htok.
  { apply getToken_no_token. subst w1.
    cbn [localStorage set_localStorage].
    rewrite !lookup_delete_ne by done. apply lookup_delete_eq. }
  pose proof (useEffect_unfold uniqueId w TokFalse) as Hunf.
  cbv zeta in Hunf. rewrite Hw1 in Hunf. specialize (Hunf Htok).
  unfold exec. by rewrite Hunf.
Qed.

(** What [handleAction] leaves behind when a token is found. *)
Lemma handleAction_with_token (action : string) (data : payload) (w : world)
    (token : string) :
  getToken w = Returns (TokString token) w →
  handleAction action data w
  = Returns ()
      (set_emitted
         (emitted w ++
            [if bool_decide (action = "reset")
             then ClientEvent_Reset token
             else ClientEvent_Action action token data])
         (set_idleTimerRef
            (IdleTimer_reset (clock_ms w) <$> idleTimerRef w) w)).
Proof.
  intros Htok. unfold handleAction. unfold mbind, M_bind.
  rewrite Htok, reset_idle_timer_unfold.
  by destruct (bool_decide (action = "reset")).
Qed.

Lemma on_Token_unfold (uniqueId token : string) (expire : number) (w : world) :
  on_Token uniqueId token expire w
  = Returns ()
      (set_emitted (emitted w ++ [ClientReady token])
         (exec (storeToken uniqueId token expire) w)).
Proof. reflexivity. Qed.

(** The world after a Token event, at a later time. *)
Lemma getToken_after_on_Token (uniqueId token : string) (e now_ms : Z) (w : world) :
  - 10 ^ 21 < e < 10 ^ 21 →
  let w' := set_clock_ms now_ms (exec (on_Token uniqueId token (Int e)) w) in
  getToken w'
  = Returns (if e <=? now_ms / 1000 then TokFalse else TokString token) w'.
Proof.
  intros He w'.
  pose proof (storeToken_then_getToken uniqueId token e now_ms
                (set_emitted (emitted w ++ [ClientReady token]) w) He) as Hget.
  exact Hget.
Qed.

(** X5.  When the server issues a token, the client stores it and answers
    ClientReady with it; from then until the expiry, a reconnect answers
    with the same token and every action is relayed with it. *)
Theorem on_Token_session (uniqueId token action : string) (data : payload)
    (e now_ms : Z) (w : world) :
  - 10 ^ 21 < e < 10 ^ 21 →
  now_ms / 1000 < e →
  let w1 := exec (on_Token uniqueId token (Int e)) w in
  let w2 := set_clock_ms now_ms w1 in
  emitted w1 = emitted w ++ [ClientReady token] ∧
  emitted (exec on_reconnect w2) = emitted w1 ++ [ClientReady token] ∧
  emitted (exec (handleAction action data) w2)
  = emitted w1 ++ [if bool_decide (action = "reset")
                   then ClientEvent_Reset token
                   else ClientEvent_Action action token data] ∧
  alerts (exec (handleAction action data) w2) = alerts w.
Proof.
  intros He Hnow w1 w2.
  pose proof (getToken_after_on_Token uniqueId token e now_ms w He) as Hget.
  fold w1 w2 in Hget.
  destruct (Z.leb_spec e (now_ms / 1000)) as [|_]; [lia|].
  split; [done|]. split; [|split].
  - unfold exec at 1, on_reconnect. unfold mbind, M_bind. by rewrite Hget.
  - unfold exec at 1.
    by rewrite (handleAction_with_token action data w2 token Hget).
  - unfold exec at 1.
    by rewrite (handleAction_with_token action data w2 token Hget).
Qed.

Lemma on_Token_session_witness :
  let w1 := exec (on_Token "A" "T1" (Int 1100)) (initial_world ∅ 1000000) in
  let w2 := set_clock_ms 1099999 w1 in
  emitted (exec on_reconnect w2) = [ClientReady "T1"; ClientReady "T1"] ∧
  emitted (exec (handleAction "login" "{}") w2)
  = [ClientReady "T1"; ClientEvent_Action "login" "T1" "{}"].
Proof.
  intros w1 w2.
  destruct (on_Token_session "A" "T1" "login" "{}" 1100 1099999
              (initial_world ∅ 1000000)) as (_ & H1 & H2 & _);
    [lia | vm_compute; reflexivity |].
  split; [exact H1 | exact H2].
Defined.

(** The world after a Token event, a page load later. *)
Lemma reload_after_on_Token (uniqueId token : string) (e now_ms : Z) (w : world) :
  localStorage (reload now_ms (exec (on_Token uniqueId token (Int e)) w))
  = <["uniqueId" := uniqueId]>
      (<["expire" := Number_toString (Int e)]>
         (<["token" := token]> (localStorage w))).
Proof. reflexivity. Qed.

(** X6.  A page that is loaded again for the same configuration resumes with the
    stored token as long as it has not expired.  After the expiry it asks
    for a new token, and the expired entries stay in the store.  Loaded for
    another configuration it asks for a new token and the store is
    cleared. *)
Theorem reload_resumes_session (uniqueId token : string) (e now_ms : Z)
    (w : world) :
  - 10 ^ 21 < e < 10 ^ 21 →
  let w1 := reload now_ms (exec (on_Token uniqueId token (Int e)) w) in
  (now_ms / 1000 < e →
   emitted (exec (useEffect uniqueId) w1) = [ClientReady token]) ∧
  (e ≤ now_ms / 1000 →
   emitted (exec (useEffect uniqueId) w1) = [GetToken uniqueId]) ∧
  localStorage (exec (useEffect uniqueId) w1) = localStorage w1 ∧
  (∀ other, other ≠ uniqueId →
     emitted (exec (useEffect other) w1) = [GetToken other] ∧
     ∀ key, key ∈ token_keys →
            localStorage (exec (useEffect other) w1) !! key = None).
Proof.
  intros He w1.
  assert (localStorage w1 !! "uniqueId" = Some uniqueId) as Hid.
  { subst w1. rewrite reload_after_on_Token. apply lookup_insert_eq. }
  assert (localStorage w1 !! "expire" = Some (Number_toString (Int e))) as Hexp.
  { subst w1. rewrite reload_after_on_Token.
    rewrite lookup_insert_ne by done. apply lookup_insert_eq. }
  assert (localStorage w1 !! "token" = Some token) as Htok.
  { subst w1. rewrite reload_after_on_Token.
    rewrite !lookup_insert_ne by done. apply lookup_insert_eq. }
  assert (exec (drop_foreign_token uniqueId) w1 = w1) as Hkeep.
  { unfold exec. rewrite drop_foreign_token_unfold.
    by rewrite bool_decide_eq_false_2 by (by intros []). }
  pose proof (getToken_stored_expiry w1 e He Hexp) as Hget.
  rewrite Htok in Hget. change (clock_ms w1) with now_ms in Hget.
  assert (useEffect uniqueId w1 =
          Returns ()
            (set_listeners
               (listeners w1 ++
                  ["Token"; "reconnect"; "Configuration"; "UpdateState"])
               (set_emitted
                  (emitted w1 ++
                     [match (if e <=? now_ms / 1000
                             then TokFalse else TokString token) with
                      | TokFalse => GetToken uniqueId
                      | TokString token => ClientReady token
                      end]) w1))) as Heff.
  { pose proof (useEffect_unfold uniqueId w1
                  (if e <=? now_ms / 1000 then TokFalse else TokString token))
      as Hunf.
    cbv zeta in Hunf. rewrite Hkeep in Hunf. by apply Hunf. }
  split; [|split; [|split]].
  - intros Hnow. unfold exec. rewrite Heff.
    destruct (Z.leb_spec e (now_ms / 1000)); [lia|done].
  - intros Hnow. unfold exec. rewrite Heff.
    destruct (Z.leb_spec e (now_ms / 1000)); [done|lia].
  - unfold exec. by rewrite Heff.
  - intros other Hother.
    destruct (useEffect_clears_foreign_token_aux other w1)
      as (Hsent & Hstore); [rewrite Hid; congruence|].
    split; [exact Hsent|]. intros key Hkey. rewrite Hstore.
    by apply removeToken_lookup.
Qed.

Lemma reload_resumes_session_witness :
  let w1 := reload 1099999
              (exec (on_Token "A" "T1" (Int 1100)) (initial_world ∅ 1000000)) in
  let w2 := reload 1100000
              (exec (on_Token "A" "T1" (Int 1100)) (initial_world ∅ 1000000)) in
  emitted (exec (useEffect "A") w1) = [ClientReady "T1"] ∧
  emitted (exec (useEffect "A") w2) = [GetToken "A"] ∧
  emitted (exec (useEffect "B") w1) = [GetToken "B"].
Proof.
  intros w1 w2. split; [|split].
  - destruct (reload_resumes_session "A" "T1" 1100 1099999
                (initial_world ∅ 1000000)) as (H & _); [lia|].
    apply H. vm_compute. reflexivity.
  - destruct (reload_resumes_session "A" "T1" 1100 1100000
                (initial_world ∅ 1000000)) as (_ & H & _); [lia|].
    apply H. vm_compute. discriminate.
  - destruct (reload_resumes_session "A" "T1" 1100 1099999
                (initial_world ∅ 1000000)) as (_ & _ & _ & H); [lia|].
    apply (H "B"). discriminate.
Defined.

(** ** What the event handlers leave alone *)

Lemma render_localStorage (w : world) : localStorage (render w) = localStorage w.
Proof.
  unfold render. by destruct (machineState w), (boxConfig w).
Qed.

Lemma handleIdle_localStorage (w : world) :
  localStorage (exec handleIdle w) = localStorage w.
Proof.
  unfold exec, handleIdle. unfold mbind, M_bind.
  destruct (getToken_total w) as [[|token] ->]; [done|].
  unfold get_machineState. destruct (machineState w) as [state|]; [|done].
  case_bool_decide; [done|]. by rewrite reset_idle_timer_unfold.
Qed.

(** X7.  The Token Store is written by the mount effect and by the Token
    listener only: a reconnect, a configuration, a state update, a user
    action, a resolved import, user activity and the passing of time all
    leave every entry of the store as it was, also when they find the token
    expired. *)
Theorem handle_keeps_store (uniqueId : string) (ev : event) (w : world) :
  ev ≠ Mount →
  (∀ token expire, ev ≠ Receive (Token token expire)) →
  localStorage (handle uniqueId ev w) = localStorage w.
Proof.
  intros Hmount Htoken.
  destruct ev as [|[token expire| |data|data]|action data|n| |dt];
    cbn [handle]; try done.
  - by destruct (Htoken token expire).
  - case_bool_decide; [|done]. rewrite render_localStorage.
    unfold exec, listener, on_reconnect. unfold mbind, M_bind.
    by destruct (getToken_total w) as [[|token] ->].
  - case_bool_decide; [|done]. by rewrite render_localStorage.
  - case_bool_decide; [|done]. rewrite render_localStorage.
    unfold exec, listener, on_UpdateState. unfold mbind, M_bind.
    by rewrite reset_idle_timer_unfold.
  - destruct (machineState w), (boxConfig w); try done.
    rewrite render_localStorage. unfold exec.
    destruct (getToken_total w) as [[|token] Hget].
    + unfold handleAction. unfold mbind, M_bind. by rewrite Hget.
    + by rewrite (handleAction_with_token action data w token Hget).
  - rewrite render_localStorage. unfold exec, import_resolved.
    by destruct (pending_imports w !! n).
  - by rewrite exec_reset_idle_timer.
  - unfold exec at 1, tick. cbn [idleTimerRef set_clock_ms].
    destruct (idleTimerRef w) as [t|]; [|done].
    destruct (IdleTimer_due _ t); [|done].
    apply (handleIdle_localStorage (set_idleTimerRef _ (set_clock_ms _ w))).
Qed.

Lemma handle_keeps_store_witness :
  localStorage (handle "A" (Tick 200000) (world_busy 100000)) = storage_T1 ∧
  localStorage (handle "A" (UserAction "login" "{}") (world_busy 250000))
  = storage_T1.
Proof.
  split.
  - apply (handle_keeps_store "A" (Tick 200000) (world_busy 100000));
      discriminate.
  - apply (handle_keeps_store "A" (UserAction "login" "{}") (world_busy 250000));
      discriminate.
Defined.

(** X8.  On every world reached from a page load, the idle timer is mounted
    exactly when the machine state and the box configuration are both
    there, which is when the kiosk screen with its action handler is
    rendered. *)
Theorem timer_mounted_with_screen (uniqueId : string) (evs : list event)
    (storage : gmap string string) (now_ms : Z) :
  let w := run uniqueId evs (initial_world storage now_ms) in
  is_Some (idleTimerRef w) ↔ is_Some (machineState w) ∧ is_Some (boxConfig w).
Proof.
  apply (run_mounted uniqueId evs (initial_world storage now_ms)).
  unfold mounted_with_screen. cbn. rewrite !is_Some_alt. tauto.
Qed.

(** ** The idle countdown *)

Lemma ticks_total_nonneg (dts : list N) : 0 ≤ ticks_total dts.
Proof.
  unfold ticks_total. induction dts as [|dt dts IH]; cbn [foldr]; lia.
Qed.

Lemma set_clock_ms_same (w : world) : set_clock_ms (clock_ms w) w = w.
Proof. by destruct w. Qed.

Lemma run_ticks_before_deadline (uniqueId : string) (dts : list N) :
  ∀ (w : world) (t : IdleTimer),
    idleTimerRef w = Some t →
    clock_ms w + ticks_total dts < deadline t →
    run uniqueId (Tick <$> dts) w
    = set_clock_ms (clock_ms w + ticks_total dts) w.
Proof.
  induction dts as [|dt dts IH]; intros w t Href Hbefore.
  - cbn. by rewrite Z.add_0_r, set_clock_ms_same.
  - rewrite run_cons_Tick. cbn [ticks_total foldr] in *.
    fold (ticks_total dts) in *.
    pose proof (ticks_total_nonneg dts) as Hnonneg.
    assert (exec (tick dt) w = set_clock_ms (clock_ms w + Z.of_N dt) w) as ->.
    { unfold exec, tick. cbn [idleTimerRef set_clock_ms clock_ms].
      rewrite Href. unfold IdleTimer_due.
      destruct (phase t); [|done].
      by destruct (Z.leb_spec (deadline t) (clock_ms w + Z.of_N dt)); [lia|]. }
    rewrite (IH _ t); cbn [idleTimerRef set_clock_ms clock_ms]; [|done|lia].
    unfold set_clock_ms. cbn. f_equal. lia.
Qed.

(** X9.  The idle monitor never acts early.  After a state update, and after an
    action that was relayed, nothing is sent and nothing is raised while the
    time that has passed is shorter than the timeout of the mounted
    timer. *)
Theorem no_idle_reset_before_timeout (uniqueId : string) (w : world)
    (t : IdleTimer) (dts : list N) :
  idleTimerRef w = Some t →
  ticks_total dts < timeout t →
  (∀ data,
     let w1 := exec (on_UpdateState data) w in
     emitted (run uniqueId (Tick <$> dts) w1) = emitted w ∧
     alerts (run uniqueId (Tick <$> dts) w1) = alerts w) ∧
  (∀ action data token,
     getToken w = Returns (TokString token) w →
     let w1 := exec (handleAction action data) w in
     emitted (run uniqueId (Tick <$> dts) w1) = emitted w1 ∧
     length (emitted w1) = S (length (emitted w)) ∧
     alerts (run uniqueId (Tick <$> dts) w1) = alerts w).
Proof.
  intros Href Hshort. split.
  - intros data w1.
    assert (w1 = set_machineState (Some data)
                   (set_idleTimerRef
                      (Some (IdleTimer_reset (clock_ms w) t)) w)) as ->.
    { subst w1. unfold exec, on_UpdateState. unfold mbind, M_bind.
      rewrite reset_idle_timer_unfold, Href. reflexivity. }
    rewrite (run_ticks_before_deadline uniqueId dts _
               (IdleTimer_reset (clock_ms w) t)); [done|done|].
    cbn. lia.
  - intros action data token Hget w1.
    assert (w1 = set_emitted
                   (emitted w ++
                      [if bool_decide (action = "reset")
                       then ClientEvent_Reset token
                       else ClientEvent_Action action token data])
                   (set_idleTimerRef
                      (Some (IdleTimer_reset (clock_ms w) t)) w)) as ->.
    { subst w1. unfold exec.
      by rewrite (handleAction_with_token action data w token Hget), Href. }
    rewrite (run_ticks_before_deadline uniqueId dts _
               (IdleTimer_reset (clock_ms w) t)); [|done|cbn; lia].
    cbn. rewrite length_app. cbn. split; [done|split; [lia|done]].
Qed.

Lemma no_idle_reset_before_timeout_witness :
  emitted (run "A" (Tick <$> [10000; 10000; 9999]%N)
             (exec (on_UpdateState {| step := "checkOutItems"; state_data := "" |})
                (world_busy 129999)))
  = [ClientReady "T1"] ∧
  emitted (run "A" (Tick <$> [10000; 10000; 9999]%N)
             (exec (handleAction "login" "{}") (world_busy 129999)))
  = [ClientReady "T1"; ClientEvent_Action "login" "T1" "{}"].
Proof.
  destruct (no_idle_reset_before_timeout "A" (world_busy 129999)
              {| timeout := 30000; deadline := 130000; phase := Active |}
              [10000; 10000; 9999]%N) as [H1 H2];
    [reflexivity | vm_compute; reflexivity |].
  split.
  - apply (H1 {| step := "checkOutItems"; state_data := "" |}).
  - destruct (H2 "login" "{}" "T1") as (Heq & _); [vm_compute; reflexivity|].
    rewrite Heq. vm_compute. reflexivity.
Defined.

Lemma tick_home (dt : N) (w : world) (state : MachineState) :
  machineState w = Some state →
  step state = "initial" →
  emitted (exec (tick dt) w) = emitted w ∧
  machineState (exec (tick dt) w) = Some state.
Proof.
  intros Hstate Hstep. unfold exec, tick. cbn [idleTimerRef set_clock_ms].
  destruct (idleTimerRef w) as [t|]; [|done].
  destruct (IdleTimer_due _ t); [|done].
  set (w0 := set_idleTimerRef _ _).
  unfold handleIdle. unfold mbind, M_bind.
  destruct (getToken_total w0) as [[|token] ->]; [done|].
  unfold get_machineState.
  change (machineState w0) with (machineState w). rewrite Hstate.
  rewrite bool_decide_eq_false_2 by (by intros []).
  by rewrite reset_idle_timer_unfold.
Qed.

(** X10.  A kiosk that idles on its initial step sends nothing, however long it is
    left alone and however often the deadline comes round. *)
Theorem idle_on_initial_step_sends_nothing (uniqueId : string)
    (dts : list N) (w : world) (state : MachineState) :
  machineState w = Some state →
  step state = "initial" →
  emitted (run uniqueId (Tick <$> dts) w) = emitted w.
Proof.
  revert w. induction dts as [|dt dts IH]; intros w Hstate Hstep; [done|].
  rewrite run_cons_Tick.
  destruct (tick_home dt w state Hstate Hstep) as [Hsent Hkept].
  by rewrite (IH _ Hkept Hstep).
Qed.

Lemma idle_on_initial_step_sends_nothing_witness :
  emitted (run "A" (Tick <$> [30000; 30000; 30000; 500000]%N) (world_home 100000))
  = [ClientReady "T1"].
Proof.
  apply (idle_on_initial_step_sends_nothing "A" _ (world_home 100000)
           {| step := "initial"; state_data := "" |}); reflexivity.
Defined.

(** ** Language bundles, once more *)

(** X11.  Whatever language code a configuration carries, the module that is
    imported is one of the two bundles shipped with the client: the code
    never reaches the import path unless it is "da" or "en". *)
Theorem loadTranslations_imports_known_bundle (languageCode : string) (w : world) :
  ∃ p,
    loadTranslations languageCode w
    = Returns () (set_pending_imports (pending_imports w ++ [p]) w) ∧
    import_languageCode p = languageCode ∧
    import_path p ∈ ["../../public/lang/da-comp.json";
                     "../../public/lang/en-comp.json"].
Proof.
  eexists. split; [apply loadTranslations_unfold|]. split; [done|].
  cbn [import_path]. unfold supportedLanguageCodes.
  case_bool_decide as Hcode; [|set_solver].
  apply elem_of_cons in Hcode as [->|Hcode]; [set_solver|].
  apply list_elem_of_singleton in Hcode as ->. set_solver.
Qed.

(** X12.  For a supported default language the locale handed to the formatter and
    the language of the catalog agree, and the configuration is the one
    received. *)
Theorem supported_language_locale (data : BoxConfig) (w : world) :
  let code := defaultLanguageCode data in
  let w1 := exec (on_Configuration data) w in
  let w2 := exec (import_resolved (length (pending_imports w))) w1 in
  code ∈ supportedLanguageCodes →
  language w2 = code ∧
  messages w2 = Some {| module_path := lang_path (language w2) |} ∧
  boxConfig w2 = Some data ∧
  pending_imports w2 = pending_imports w.
Proof.
  intros code w1 w2 Hcode.
  destruct (configuration_then_import data w)
    as (w1' & w2' & H1 & H2 & Hconfig & Hmsg & Hlang & _ & Hpending).
  assert (w1 = w1') as -> by (subst w1; unfold exec; by rewrite H1).
  assert (w2 = w2') as -> by (subst w2; unfold exec; by rewrite H2).
  fold code in Hmsg, Hlang.
  rewrite bool_decide_eq_true_2 in Hmsg by done.
  by rewrite Hmsg, Hlang.
Qed.

Lemma supported_language_locale_witness :
  let w2 := exec (import_resolved 0)
              (exec (on_Configuration config_da) (initial_world ∅ 0)) in
  language w2 = "da" ∧
  messages w2 = Some {| module_path := "../../public/lang/da-comp.json" |}.
Proof.
  intros w2.
  destruct (supported_language_locale config_da (initial_world ∅ 0))
    as (H1 & H2 & _).
  - apply (bool_decide_unpack _). vm_compute. exact I.
  - split; [exact H1 | exact H2].
Defined.

Lemma exec_on_Configuration (data : BoxConfig) (w : world) :
  exec (on_Configuration data) w
  = set_boxConfig (Some data)
      (set_pending_imports (pending_imports w ++ [import_of data]) w).
Proof. reflexivity. Qed.

Lemma exec_import_resolved (n : nat) (p : pending_import) (w : world) :
  pending_imports w !! n = Some p →
  exec (import_resolved n) w
  = set_language (import_languageCode p)
      (set_messages (Some {| module_path := import_path p |})
         (set_pending_imports (delete n (pending_imports w)) w)).
Proof. intros Hp. unfold exec, import_resolved. by rewrite Hp. Qed.

(** X13.  Two configurations in a row start two imports.  When the import of the
    second resolves before the import of the first, the box configuration
    is the second one, but the locale and the catalog are those of the
    first: the translations follow the import that resolves last, not the
    configuration that arrived last. *)
Theorem import_resolution_order (data1 data2 : BoxConfig) (w : world) :
  let n := length (pending_imports w) in
  let w2 := exec (on_Configuration data2) (exec (on_Configuration data1) w) in
  let w4 := exec (import_resolved n) (exec (import_resolved (S n)) w2) in
  boxConfig w4 = Some data2 ∧
  language w4 = defaultLanguageCode data1 ∧
  messages w4 = Some {| module_path := import_path (import_of data1) |} ∧
  pending_imports w4 = pending_imports w.
Proof.
  intros n w2 w4.
  assert (pending_imports w2
          = (pending_imports w ++ [import_of data1]) ++ [import_of data2])
    as Hpending by done.
  assert (length (pending_imports w ++ [import_of data1]) = S n) as Hlen
    by (rewrite length_app; cbn; lia).
  assert (exec (import_resolved (S n)) w2
          = set_language (defaultLanguageCode data2)
              (set_messages
                 (Some {| module_path := import_path (import_of data2) |})
                 (set_pending_imports
                    (pending_imports w ++ [import_of data1]) w2))) as Hfirst.
  { rewrite (exec_import_resolved (S n) (import_of data2)).
    - rewrite Hpending, <- Hlen, delete_middle, app_nil_r. done.
    - rewrite Hpending, <- Hlen, lookup_app_r, Nat.sub_diag by done. done. }
  subst w4. rewrite Hfirst.
  rewrite (exec_import_resolved n (import_of data1)).
  - cbn [pending_imports set_language set_messages set_pending_imports
         boxConfig language messages import_languageCode import_of].
    subst n. rewrite delete_middle, app_nil_r. done.
  - cbn [pending_imports set_language set_messages set_pending_imports].
    subst n. by rewrite lookup_app_r, Nat.sub_diag.
Qed.

(** Danish configuration first, English second, imports resolved in the
    opposite order: the kiosk is configured for English and speaks
    Danish. *)
Example import_resolution_order_da_en :
  let w := run "A" [Mount;
                    Receive (Configuration config_da);
                    Receive (Configuration
                               {| defaultLanguageCode := "en";
                                  inactivityTimeOut := 30000;
                                  config_data := "" |});
                    ImportResolved 1; ImportResolved 0]
             (initial_world ∅ 0) in
  defaultLanguageCode <$> boxConfig w = Some "en" ∧ language w = "da".
Proof. vm_compute. split; reflexivity. Qed.

(** ** The login step: scanning, typing and submitting *)

Lemma string_append_cons (c : ascii) (s t : string) :
  String c s +:+ t = String c (s +:+ t).
Proof. reflexivity. Qed.

Lemma string_append_nil_r (s : string) : s +:+ "" = s.
Proof.
  induction s as [|c s IH]; [done|]. by rewrite string_append_cons, IH.
Qed.

Lemma string_append_assoc (s t u : string) : (s +:+ t) +:+ u = s +:+ (t +:+ u).
Proof.
  induction s as [|c s IH]; [done|]. by rewrite !string_append_cons, IH.
Qed.

Lemma slice_0_minus_1_snoc (s : string) (c : ascii) :
  slice_0_minus_1 (s +:+ String c "") = s.
Proof.
  unfold slice_0_minus_1. rewrite string_length_append. cbn [String.length].
  replace (String.length s + 1 - 1)%nat with (String.length s) by lia.
  induction s as [|a s IH]; [done|].
  rewrite string_append_cons. cbn [String.length String.substring].
  by rewrite IH.
Qed.

Section ScanPasswordLoginFacts.

Variable BARCODE_COMMAND_FINISH : string.
Variable BARCODE_COMMAND_LENGTH : nat.
Variable debugEnabled : bool.
Variable hasTouch : bool.

Abbreviation dispatch :=
  (login_dispatch BARCODE_COMMAND_FINISH BARCODE_COMMAND_LENGTH debugEnabled hasTouch).
Abbreviation run_login :=
  (login_run BARCODE_COMMAND_FINISH BARCODE_COMMAND_LENGTH debugEnabled hasTouch).
Abbreviation handler :=
  (login_handler BARCODE_COMMAND_FINISH BARCODE_COMMAND_LENGTH debugEnabled hasTouch).

Lemma login_run_cons (ev : login_event) (evs : list login_event) (st : login_state) :
  run_login (ev :: evs) st = run_login evs (dispatch ev st).
Proof. reflexivity. Qed.

Lemma login_run_app (evs1 evs2 : list login_event) (st : login_state) :
  run_login (evs1 ++ evs2) st = run_login evs2 (run_login evs1 st).
Proof. apply foldl_app. Qed.

Ltac unfold_login :=
  unfold login_handler, barcodeCallback, onInput, enterFunction,
    onKeyboardInput, login, handleUsernameInput.

Lemma login_handler_keydown_listener (ev : login_event) (st : login_state) :
  keydown_listener (handler ev st) = keydown_listener st.
Proof.
  destruct ev; unfold_login;
    repeat case_bool_decide;
    repeat match goal with
           | |- context [if ?b then _ else _] => destruct b
           end; reflexivity.
Qed.

(** X18.  The keydown listener always belongs to a render with the current
    password: whatever has happened, an Enter that submits the form submits
    the password the form holds. *)
Theorem keydown_listener_password (evs : list login_event) :
  let st := run_login evs login_initial in
  closure_password (keydown_listener st) = password st.
Proof.
  cbv zeta.
  assert (∀ st, closure_password (keydown_listener st) = password st →
                closure_password (keydown_listener (run_login evs st))
                = password (run_login evs st)) as Hinv.
  { induction evs as [|ev evs IH]; intros st Hst; [done|].
    rewrite login_run_cons. apply IH. unfold login_dispatch.
    case_bool_decide as Hpw; [|done].
    by rewrite login_handler_keydown_listener, Hpw. }
  by apply Hinv.
Qed.

(** X14.  What a scan does.  A code of the command length never touches the
    form: it calls the reset action when it is the finish command and is
    dropped otherwise, so it can never become the username.  Any other code
    becomes the username and opens the password step, with the fixed
    subheader text set last; it calls no action and leaves the password and
    the keydown listener as they were. *)
Theorem scan_dispatch (code : string) (st : login_state) :
  let st' := dispatch (Scan code) st in
  (String.length code = BARCODE_COMMAND_LENGTH →
   st' = if bool_decide (code = BARCODE_COMMAND_FINISH)
         then actionHandler "reset" NoData st else st) ∧
  (String.length code ≠ BARCODE_COMMAND_LENGTH →
   username st' = code ∧
   usernameScanned st' = true ∧
   subheader st' = SubheaderString "Tast dit password" ∧
   helpboxText st' = scan_login_password_password_help_box_text ∧
   password st' = password st ∧
   keydown_listener st' = keydown_listener st ∧
   action_calls st' = action_calls st) ∧
  (String.length BARCODE_COMMAND_FINISH ≠ BARCODE_COMMAND_LENGTH →
   action_calls st' = action_calls st).
Proof.
  cbv zeta. unfold login_dispatch, login_handler, barcodeCallback.
  split; [|split].
  - intros Hlen. rewrite (bool_decide_eq_true_2 _ Hlen).
    destruct (bool_decide (code = BARCODE_COMMAND_FINISH));
      by rewrite bool_decide_eq_true_2.
  - intros Hlen. rewrite (bool_decide_eq_false_2 _ Hlen).
    by rewrite bool_decide_eq_true_2.
  - intros Hfinish.
    destruct (decide (String.length code = BARCODE_COMMAND_LENGTH)) as [Hlen|Hlen].
    + rewrite (bool_decide_eq_true_2 _ Hlen).
      rewrite (bool_decide_eq_false_2 (code = BARCODE_COMMAND_FINISH))
        by (intros ->; done).
      by rewrite bool_decide_eq_true_2.
    + rewrite (bool_decide_eq_false_2 _ Hlen).
      by rewrite bool_decide_eq_true_2.
Qed.

(** X15.  Keys of the on-screen keyboard other than enter and backspace are
    appended to the password as they are, in the order pressed; the enter
    key then calls the login action once, with the scanned username and the
    password typed so far. *)
Theorem typing_then_enter (keys : list string) (st : login_state) :
  usernameScanned st = true →
  debugEnabled || hasTouch = true →
  Forall (λ key, key ≠ "{enter}" ∧ key ≠ "{bksp}") keys →
  let typed := foldr String.append "" keys in
  let st1 := run_login (KeyPress <$> keys) st in
  password st1 = password st +:+ typed ∧
  username st1 = username st ∧
  action_calls st1 = action_calls st ∧
  action_calls (dispatch (KeyPress "{enter}") st1)
  = action_calls st ++
      [{| call_action := "login";
          call_data := LoginData (username st) (password st +:+ typed) |}].
Proof.
  intros Hscanned Hshown Hkeys. cbv zeta.
  assert (password (run_login (KeyPress <$> keys) st)
          = password st +:+ foldr String.append "" keys ∧
          username (run_login (KeyPress <$> keys) st) = username st ∧
          usernameScanned (run_login (KeyPress <$> keys) st) = true ∧
          action_calls (run_login (KeyPress <$> keys) st) = action_calls st)
    as (Hpw & Huser & Hscanned' & Hcalls).
  { revert st Hscanned.
    induction Hkeys as [|key keys [Henter Hbksp] _ IH]; intros st Hscanned.
    - cbn. by rewrite string_append_nil_r.
    - cbn [fmap list_fmap]. rewrite login_run_cons.
      assert (handler (KeyPress key) st
              = setPassword (password st +:+ key) st) as Hkey.
      { unfold login_handler, onInput. rewrite Hscanned, Hshown.
        cbn [andb current_closure closure_password].
        by rewrite !bool_decide_eq_false_2. }
      assert (password (dispatch (KeyPress key) st) = password st +:+ key
              ∧ username (dispatch (KeyPress key) st) = username st
              ∧ usernameScanned (dispatch (KeyPress key) st) = true
              ∧ action_calls (dispatch (KeyPress key) st) = action_calls st)
        as (Hpw & Huser & Hsc & Hcalls).
      { unfold login_dispatch. rewrite Hkey. by case_bool_decide. }
      destruct (IH _ Hsc) as (IHpw & IHuser & IHsc & IHcalls).
      rewrite IHpw, IHuser, IHcalls, Hpw, Huser, Hcalls.
      cbn [foldr]. by rewrite string_append_assoc. }
  split; [done|]. split; [done|]. split; [done|].
  unfold login_dispatch, login_handler, onInput, login.
  rewrite Hscanned', Hshown. cbn [andb].
  rewrite bool_decide_eq_true_2 by done.
  cbn [actionHandler password action_calls current_closure
       closure_username closure_password].
  rewrite bool_decide_eq_true_2 by done.
  unfold actionHandler. cbn [action_calls]. by rewrite Hcalls, Huser, Hpw.
Qed.

(** X16.  Backspace removes the last code unit of the password, so it undoes a
    key of one code unit; on an empty password it does nothing. *)
Theorem backspace_undoes_key (c : ascii) (st : login_state) :
  usernameScanned st = true →
  debugEnabled || hasTouch = true →
  password (run_login [KeyPress (String c ""); KeyPress "{bksp}"] st)
  = password st ∧
  (password st = "" →
   password (dispatch (KeyPress "{bksp}") st) = "").
Proof.
  intros Hscanned Hshown.
  assert (∀ st key, usernameScanned st = true →
                    key ≠ "{enter}" →
                    password (dispatch (KeyPress key) st)
                    = (if bool_decide (key = "{bksp}")
                       then slice_0_minus_1 (password st)
                       else password st +:+ key)
                    ∧ usernameScanned (dispatch (KeyPress key) st) = true)
    as Hkey.
  { intros st0 key Hsc Henter. unfold login_dispatch, login_handler, onInput.
    rewrite Hsc, Hshown. cbn [andb current_closure closure_password].
    rewrite (bool_decide_eq_false_2 _ Henter).
    by repeat case_bool_decide. }
  split.
  - rewrite !login_run_cons. cbn [login_run foldl].
    destruct (Hkey st (String c "") Hscanned) as [Hpw Hsc]; [done|].
    destruct (Hkey _ "{bksp}" Hsc) as [Hpw' _]; [done|].
    rewrite Hpw', Hpw.
    rewrite bool_decide_eq_true_2 by done.
    rewrite bool_decide_eq_false_2 by (destruct c as [[] [] [] [] [] [] [] []]; done).
    apply slice_0_minus_1_snoc.
  - intros Hempty.
    destruct (Hkey st "{bksp}" Hscanned) as [Hpw _]; [done|].
    rewrite Hpw, Hempty. reflexivity.
Qed.

(** X17.  The Enter key of a physical keyboard reaches the listener of the render
    in which the password last changed.  Right after a card has been
    scanned that render is the first one, in which no username was scanned:
    Enter does nothing although the form shows the password step.  Once the
    password has changed, Enter calls the login action with the scanned
    username and the password. *)
Theorem enter_after_scan (code pw : string) :
  String.length code ≠ BARCODE_COMMAND_LENGTH →
  let st1 := dispatch (Scan code) login_initial in
  usernameScanned st1 = true ∧
  dispatch (KeyDown "Enter") st1 = st1 ∧
  (pw ≠ "" →
   action_calls (run_login [Scan code; InputChange pw; KeyDown "Enter"]
                   login_initial)
   = [{| call_action := "login"; call_data := LoginData code pw |}]).
Proof.
  intros Hlen. cbv zeta.
  assert (dispatch (Scan code) login_initial
          = setSubheader (SubheaderString "Tast dit password")
              (setHelpboxText scan_login_password_password_help_box_text
                 (setUsernameScanned true
                    (setUsername code
                       (handleUsernameInput code login_initial))))) as Hscan.
  { unfold login_dispatch, login_handler, barcodeCallback.
    by rewrite (bool_decide_eq_false_2 _ Hlen). }
  rewrite Hscan. split; [done|]. split; [done|].
  intros Hpw. rewrite !login_run_cons, Hscan. cbn [login_run foldl].
  unfold login_dispatch at 2. unfold login_handler at 2.
  cbn [usernameScanned setSubheader setHelpboxText setUsernameScanned].
  unfold onKeyboardInput.
  cbn [password setPassword setSubheader setHelpboxText
       setUsernameScanned setUsername handleUsernameInput login_initial].
  rewrite bool_decide_eq_false_2 by done.
  unfold login_dispatch, login_handler, enterFunction, login, actionHandler.
  cbn. rewrite !bool_decide_eq_true_2 by done. reflexivity.
Qed.

End ScanPasswordLoginFacts.

Lemma typing_then_enter_witness :
  let st := login_dispatch "90000" 5 false true (Scan "C023648674") login_initial in
  action_calls
    (login_run "90000" 5 false true
       (KeyPress <$> ["1"; "2"; "3"; "4"; "{enter}"]) st)
  = [{| call_action := "login"; call_data := LoginData "C023648674" "1234" |}].
Proof.
  intros st.
  destruct (typing_then_enter "90000" 5 false true ["1"; "2"; "3"; "4"] st)
    as (_ & _ & _ & H);
    [reflexivity | reflexivity | repeat constructor; discriminate |].
  change (KeyPress <$> ["1"; "2"; "3"; "4"; "{enter}"])
    with ((KeyPress <$> ["1"; "2"; "3"; "4"]) ++ [KeyPress "{enter}"]).
  rewrite login_run_app. exact H.
Defined.

Lemma scan_dispatch_witness :
  action_calls (login_dispatch "90000" 5 false true (Scan "90000") login_initial)
  = [{| call_action := "reset"; call_data := NoData |}] ∧
  username (login_dispatch "90000" 5 false true (Scan "12345") login_initial) = "" ∧
  username (login_dispatch "90000" 5 false true (Scan "C023648674") login_initial)
  = "C023648674" ∧
  action_calls (login_dispatch "900001" 5 false true (Scan "900001") login_initial)
  = [].
Proof.
  split; [|split; [|split]].
  - destruct (scan_dispatch "90000" 5 false true "90000" login_initial)
      as (H & _ & _).
    rewrite H; reflexivity.
  - destruct (scan_dispatch "90000" 5 false true "12345" login_initial)
      as (H & _ & _).
    rewrite H; reflexivity.
  - destruct (scan_dispatch "90000" 5 false true "C023648674" login_initial)
      as (_ & H & _).
    apply H. vm_compute. discriminate.
  - destruct (scan_dispatch "900001" 5 false true "900001" login_initial)
      as (_ & _ & H).
    apply H. vm_compute. discriminate.
Defined.

Lemma backspace_undoes_key_witness :
  let st := login_dispatch "90000" 5 false true (Scan "C023648674") login_initial in
  password (login_run "90000" 5 false true [KeyPress "7"; KeyPress "{bksp}"] st)
  = "" ∧
  password (login_dispatch "90000" 5 false true (KeyPress "{bksp}") st) = "".
Proof.
  intros st.
  destruct (backspace_undoes_key "90000" 5 false true "7"%char st) as [H1 H2];
    [reflexivity | reflexivity |].
  split; [exact H1 | apply H2; reflexivity].
Defined.

Lemma enter_after_scan_witness :
  let st1 := login_dispatch "90000" 5 false true (Scan "C023648674") login_initial in
  action_calls (login_dispatch "90000" 5 false true (KeyDown "Enter") st1) = [] ∧
  action_calls
    (login_run "90000" 5 false true
       [Scan "C023648674"; InputChange "1234"; KeyDown "Enter"] login_initial)
  = [{| call_action := "login"; call_data := LoginData "C023648674" "1234" |}].
Proof.
  intros st1.
  destruct (enter_after_scan "90000" 5 false true "C023648674" "1234")
    as (_ & H1 & H2); [vm_compute; discriminate|].
  split.
  - subst st1. rewrite H1. reflexivity.
  - apply H2. discriminate.
Defined.

(** A key name of several code units is appended whole and backspace takes
    off one code unit of it. *)
Example backspace_after_long_key :
  let st := login_dispatch "90000" 5 false true (Scan "C023648674") login_initial in
  password (login_run "90000" 5 false true
              [KeyPress "{space}"; KeyPress "{bksp}"] st)
  = "{space".
Proof. vm_compute. reflexivity. Qed.

Section ScanPasswordLoginCalls.

Variable BARCODE_COMMAND_FINISH : string.
Variable BARCODE_COMMAND_LENGTH : nat.
Variable debugEnabled : bool.
Variable hasTouch : bool.

Lemma login_dispatch_calls (ev : login_event) (st : login_state) :
  let st' := login_dispatch BARCODE_COMMAND_FINISH BARCODE_COMMAND_LENGTH
               debugEnabled hasTouch ev st in
  action_calls st' = action_calls st ∨
  ∃ c, action_calls st' = action_calls st ++ [c] ∧ login_step_call c.
Proof.
  cbv zeta. unfold login_dispatch.
  set (st' := login_handler _ _ _ _ ev st).
  assert (action_calls st' = action_calls st ∨
          ∃ c, action_calls st' = action_calls st ++ [c] ∧ login_step_call c)
    as Hcalls.
  { subst st'. unfold login_step_call.
    destruct ev; unfold login_handler, barcodeCallback, onInput, enterFunction,
      onKeyboardInput, login, handleUsernameInput;
      repeat case_bool_decide;
      repeat match goal with
             | |- context [if ?b then _ else _] => destruct b
             end;
      cbn [action_calls actionHandler setPassword setSubheader setHelpboxText
           setUsernameScanned setUsername];
      first [by left | right; eexists; split; [reflexivity|]; cbn; eauto]. }
  by case_bool_decide.
Qed.

(** X19.  Whatever is scanned, typed or pressed, the login step calls the action
    handler at most once per event, and only to reset or to log in: it never
    sends another action. *)
Theorem login_step_calls (evs : list login_event) (st : login_state) :
  ∃ new,
    action_calls (login_run BARCODE_COMMAND_FINISH BARCODE_COMMAND_LENGTH
                    debugEnabled hasTouch evs st)
    = action_calls st ++ new ∧
    (length new ≤ length evs)%nat ∧
    Forall login_step_call new.
Proof.
  revert st. induction evs as [|ev evs IH]; intros st.
  - exists []. by rewrite app_nil_r.
  - cbn [login_run foldl].
    destruct (IH (login_dispatch BARCODE_COMMAND_FINISH BARCODE_COMMAND_LENGTH
                    debugEnabled hasTouch ev st)) as (new & Hnew & Hlen & Hall).
    unfold login_run in Hnew. rewrite Hnew.
    destruct (login_dispatch_calls ev st) as [->|(c & -> & Hc)].
    + exists new. cbn [length]. split; [done|]. split; [lia|done].
    + exists (c :: new). rewrite <- app_assoc. cbn [length app].
      split; [done|]. split; [lia|by constructor].
Qed.

End ScanPasswordLoginCalls.

(** ** The login methods offered *)





(** One known method beside an unknown one: a single bubble, with the
    specific label. *)
Example components_with_unknown_method :
  components ["login_barcode"; "login_fingerprint"]
  = [{| type := "loginScanUsername"; label := ChangeLoginMethodUsername |}].
Proof. reflexivity. Qed.


Lemma removeToken_then_getToken_witness :
  let w' := set_clock_ms 0 (exec removeToken (world_busy 100000)) in
  getToken w' = Returns TokFalse w' ∧ localStorage w' !! "token" = None.
Proof.
  intros w'.
  destruct (removeToken_then_getToken 0 (world_busy 100000)) as (H1 & H2 & _).
  split; [exact H1|]. apply H2. apply list_elem_of_here.
Defined.

Lemma storeToken_overwrites_witness :
  let w := set_localStorage (<["theme" := "dark"]> storage_T1) (world_busy 0) in
  localStorage (exec (storeToken "B" "T2" (Int 900))
                  (exec (storeToken "A" "T1" (Int 200)) w)) !! "theme"
  = Some "dark".
Proof.
  intros w.
  destruct (storeToken_overwrites "A" "B" "T1" "T2" (Int 200) (Int 900) w)
    as (_ & _ & _ & _ & H).
  rewrite (H "theme"); [vm_compute; reflexivity|].
  intros Hin. apply (bool_decide_pack _) in Hin. vm_compute in Hin. exact Hin.
Defined.
